(** * OpenAPI schema query tools (index.mjs): a shallow embedding

    The server registers ten tools.  Each one loads the OpenAPI document
    (a tree of plain JavaScript values produced by the YAML loader), walks
    it with ordinary property reads and returns one text block: either a
    literal sentence or [toYaml] of a value.

    The embedding keeps the JavaScript behaviour the tools rely on:
    - a property read on [undefined] or [null] throws a [TypeError];
      a read of a missing property yields [undefined];
    - [!x], [x || y], [x && y] and [cond ? a : b] go through truthiness;
    - an object enumerates its own keys with the array-index keys first,
      in ascending numeric order, and the other keys in insertion order;
    - spreading or iterating a value that is not iterable throws.

    Boundaries of the model: objects are dictionaries of their own
    properties, in which [__proto__] is a key like any other, numbers are
    integers, case conversion acts on ASCII letters, and the YAML renderer
    and the regular-expression engine are external: the first is kept
    symbolic ([Yaml v]), the second is a parameter of the search tool.

    A read [v[k]] whose key comes from a tool argument can also find a
    member that [v] inherits from a built-in prototype ([constructor],
    [toString], [__proto__], ...), which [get] does not represent.  The
    predicate [plain_read v k] singles out the reads that own properties
    decide; a theorem that depends on a key being absent is stated for
    plain reads only.  On those reads every value the tools render is a
    value of the document, which the renderer accepts. *)

From Stdlib Require Import List String Ascii ZArith NArith Bool Lia.
From Stdlib Require Import Permutation Sorted DecimalString.
Import ListNotations.
Open Scope string_scope.

(** ** Errors and results *)

Inductive error : Type :=
| TypeError
| SyntaxError.

Inductive result (A : Type) : Type :=
| Ok (a : A)
| Throw (e : error).

Arguments Ok {A} a.
Arguments Throw {A} e.

Definition bind {A B} (m : result A) (f : A -> result B) : result B :=
  match m with
  | Ok a => f a
  | Throw e => Throw e
  end.

Notation "x <- m ;; k" := (bind m (fun x => k))
  (at level 61, m at next level, right associativity).
Notation "' pat <- m ;; k" := (bind m (fun x => match x with pat => k end))
  (at level 61, pat pattern, m at next level, right associativity).

(** A [for] loop whose body may throw: the state is threaded through the
    iterations and the first exception ends the loop. *)
Fixpoint foldM {A S} (body : S -> A -> result S) (xs : list A) (s : S)
  : result S :=
  match xs with
  | [] => Ok s
  | x :: rest => s' <- body s x ;; foldM body rest s'
  end.

(** ** Strings *)

Definition dquote : string := String (ascii_of_nat 34) EmptyString.
Definition newline : string := String (ascii_of_nat 10) EmptyString.

Definition lower_ascii (c : ascii) : ascii :=
  let n := nat_of_ascii c in
  if (65 <=? n)%nat && (n <=? 90)%nat then ascii_of_nat (n + 32) else c.

Definition upper_ascii (c : ascii) : ascii :=
  let n := nat_of_ascii c in
  if (97 <=? n)%nat && (n <=? 122)%nat then ascii_of_nat (n - 32) else c.

Fixpoint map_string (f : ascii -> ascii) (s : string) : string :=
  match s with
  | EmptyString => EmptyString
  | String c rest => String (f c) (map_string f rest)
  end.

Definition toLowerCase : string -> string := map_string lower_ascii.
Definition toUpperCase : string -> string := map_string upper_ascii.

(** [xs.join(sep)] on an array of strings. *)
Fixpoint join (sep : string) (xs : list string) : string :=
  match xs with
  | [] => EmptyString
  | [x] => x
  | x :: rest => x ++ sep ++ join sep rest
  end.

Definition includes (xs : list string) (s : string) : bool :=
  existsb (String.eqb s) xs.

(** An argument declared [z.string().optional()] is [undefined] or a
    string; the empty string is falsy like [undefined]. *)
Definition given (o : option string) : bool :=
  match o with
  | Some s => negb (s =? EmptyString)
  | None => false
  end.

Definition text_of (o : option string) : string :=
  match o with
  | Some s => s
  | None => "undefined"
  end.

(** ** Array-index keys

    A property key is an array index when it is the canonical decimal
    form of an integer below 2^32 - 1; such keys are enumerated first. *)

Definition digit_of (c : ascii) : option N :=
  let n := N_of_ascii c in
  if (48 <=? n)%N && (n <=? 57)%N then Some (n - 48)%N else None.

Fixpoint parse_digits (s : string) (acc : N) : option N :=
  match s with
  | EmptyString => Some acc
  | String c rest =>
      match digit_of c with
      | Some d => parse_digits rest (10 * acc + d)%N
      | None => None
      end
  end.

Definition array_index (k : string) : option N :=
  match k with
  | EmptyString => None
  | String c rest =>
      if (c =? "0")%char && negb (rest =? EmptyString) then None
      else match parse_digits k 0 with
           | Some n => if (n <? 4294967295)%N then Some n else None
           | None => None
           end
  end.

Definition key_of_nat (n : nat) : string :=
  NilZero.string_of_uint (Nat.to_uint n).

(** ** Values *)

#[local] Set Warnings "-register-all".

Inductive value : Type :=
| VUndefined
| VNull
| VBool (b : bool)
| VNum (n : Z)
| VStr (s : string)
| VArr (xs : list value)
| VObj (ps : list (string * value)).

Definition props : Type := list (string * value).

Definition truthy (v : value) : bool :=
  match v with
  | VUndefined | VNull => false
  | VBool b => b
  | VNum n => negb (n =? 0)%Z
  | VStr s => negb (s =? EmptyString)
  | VArr _ | VObj _ => true
  end.

(** [a || b] *)
Definition or_else (a b : value) : value := if truthy a then a else b.
Infix "|||" := or_else (at level 50, left associativity).

(** [typeof v === "object"] *)
Definition typeof_object (v : value) : bool :=
  match v with
  | VNull | VArr _ | VObj _ => true
  | _ => false
  end.

(** [String(v)], the coercion applied by template literals and by
    [RegExp.prototype.test]. *)
Fixpoint to_string (v : value) : string :=
  match v with
  | VUndefined => "undefined"
  | VNull => "null"
  | VBool true => "true"
  | VBool false => "false"
  | VNum n => NilZero.string_of_int (Z.to_int n)
  | VStr s => s
  | VArr xs =>
      (fix elements (l : list value) : string :=
         match l with
         | [] => EmptyString
         | x :: rest =>
             let here := match x with
                         | VUndefined | VNull => EmptyString
                         | _ => to_string x
                         end in
             match rest with
             | [] => here
             | _ => here ++ "," ++ elements rest
             end
         end) xs
  | VObj _ => "[object Object]"
  end.

(** ** Objects: own properties in enumeration order *)

Fixpoint lookup (k : string) (ps : props) : option value :=
  match ps with
  | [] => None
  | (k', v) :: rest => if k' =? k then Some v else lookup k rest
  end.

Fixpoint replace (k : string) (v : value) (ps : props) : props :=
  match ps with
  | [] => []
  | (k', v') :: rest =>
      if k' =? k then (k', v) :: rest else (k', v') :: replace k v rest
  end.

(** A new array-index key goes after the smaller index keys and before
    everything else. *)
Fixpoint insert_index (n : N) (k : string) (v : value) (ps : props) : props :=
  match ps with
  | [] => [(k, v)]
  | (k', v') :: rest =>
      match array_index k' with
      | Some n' =>
          if (n' <? n)%N then (k', v') :: insert_index n k v rest
          else (k, v) :: ps
      | None => (k, v) :: ps
      end
  end.

(** [o[k] = v] *)
Definition obj_set (ps : props) (k : string) (v : value) : props :=
  match lookup k ps with
  | Some _ => replace k v ps
  | None =>
      match array_index k with
      | Some n => insert_index n k v ps
      | None => (ps ++ [(k, v)])%list
      end
  end.

(** [delete o[k]] *)
Definition obj_delete {A} (k : string) (ps : list (string * A))
  : list (string * A) :=
  filter (fun p => negb (fst p =? k)) ps.

(** The loader fills each mapping by assigning its entries in the order
    of the document; an object literal does the same with its fields. *)
Definition load_mapping (entries : props) : props :=
  fold_left (fun o p => obj_set o (fst p) (snd p)) entries [].

Definition indexed (xs : list value) : props :=
  combine (map key_of_nat (seq 0 (List.length xs))) xs.

Fixpoint chars (s : string) : list value :=
  match s with
  | EmptyString => []
  | String c rest => VStr (String c EmptyString) :: chars rest
  end.

(** [v[k]] *)
Definition get (v : value) (k : string) : result value :=
  match v with
  | VUndefined | VNull => Throw TypeError
  | VObj ps =>
      Ok (match lookup k ps with Some x => x | None => VUndefined end)
  | VArr xs =>
      Ok (if k =? "length" then VNum (Z.of_nat (List.length xs))
          else match array_index k with
               | Some n => nth (N.to_nat n) xs VUndefined
               | None => VUndefined
               end)
  | VStr s =>
      Ok (if k =? "length" then VNum (Z.of_nat (String.length s))
          else match array_index k with
               | Some n => nth (N.to_nat n) (chars s) VUndefined
               | None => VUndefined
               end)
  | VBool _ | VNum _ => Ok VUndefined
  end.

(** [v?.[k]] *)
Definition get_opt (v : value) (k : string) : result value :=
  match v with
  | VUndefined | VNull => Ok VUndefined
  | _ => get v k
  end.

(** [Object.entries(v)] *)
Definition Object_entries (v : value) : result props :=
  match v with
  | VUndefined | VNull => Throw TypeError
  | VObj ps => Ok ps
  | VArr xs => Ok (indexed xs)
  | VStr s => Ok (indexed (chars s))
  | VBool _ | VNum _ => Ok []
  end.

(** [Object.keys(v)] *)
Definition Object_keys (v : value) : result (list string) :=
  ps <- Object_entries v ;; Ok (map fst ps).

(** [Object.values(v)] *)
Definition Object_values (v : value) : result (list value) :=
  ps <- Object_entries v ;; Ok (map snd ps).

(** [[...v]] and [for (const x of v)] *)
Definition iterate (v : value) : result (list value) :=
  match v with
  | VArr xs => Ok xs
  | VStr s => Ok (chars s)
  | _ => Throw TypeError
  end.

Definition strings (xs : list string) : value := VArr (map VStr xs).

(** ** The tools

    Every tool returns a single text block: a literal sentence or the
    YAML rendering of a value. *)

Inductive output : Type :=
| Text (s : string)
| Yaml (v : value).

Definition HTTP_METHODS : list string :=
  ["get"; "post"; "put"; "delete"; "patch"; "options"; "head"].

Definition path_not_found (path : string) : string :=
  "Path " ++ path ++ " not found".

Definition method_not_found (method path : string) : string :=
  "Method " ++ method ++ " not found for path " ++ path.

(** *** list-endpoints

    The source stores a fresh object under [pathMap[path]] and fills it
    through that reference in the inner loop; here the inner loop fills
    the object and the result is stored, which leaves the same map. *)

Definition list_endpoints (openApiDoc : value) : result output :=
  paths <- get openApiDoc "paths" ;;
  entries <- Object_entries (paths ||| VObj []) ;;
  pathMap <-
    foldM (fun pathMap '(path, pathItem) =>
             keys <- Object_keys pathItem ;;
             let methods :=
               filter (fun key => includes HTTP_METHODS (toLowerCase key))
                      keys in
             byMethod <-
               foldM (fun acc method =>
                        operation <- get pathItem method ;;
                        summary <- get operation "summary" ;;
                        Ok (obj_set acc (toUpperCase method)
                                    (summary ||| VStr "No summary")))
                     methods [] ;;
             Ok (obj_set pathMap path (VObj byMethod)))
          entries [] ;;
  Ok (Yaml (VObj pathMap)).

(** *** get-endpoint *)

Definition get_endpoint (openApiDoc : value) (path method : string)
  : result output :=
  paths <- get openApiDoc "paths" ;;
  pathItem <- get_opt paths path ;;
  if negb (truthy pathItem) then Ok (Text (path_not_found path))
  else
    operation <- get pathItem (toLowerCase method) ;;
    if negb (truthy operation)
    then Ok (Text (method_not_found method path))
    else
      summary <- get operation "summary" ;;
      description <- get operation "description" ;;
      tags <- get operation "tags" ;;
      parameters <- get operation "parameters" ;;
      requestBody <- get operation "requestBody" ;;
      responses <- get operation "responses" ;;
      security <- get operation "security" ;;
      deprecated <- get operation "deprecated" ;;
      Ok (Yaml (VObj [("path", VStr path);
                      ("method", VStr (toUpperCase method));
                      ("summary", summary);
                      ("description", description);
                      ("tags", tags);
                      ("parameters", parameters);
                      ("requestBody", requestBody);
                      ("responses", responses);
                      ("security", security);
                      ("deprecated", deprecated)])).

(** *** get-request-body *)

Definition get_request_body (openApiDoc : value) (path method : string)
  : result output :=
  paths <- get openApiDoc "paths" ;;
  pathItem <- get_opt paths path ;;
  if negb (truthy pathItem) then Ok (Text (path_not_found path))
  else
    operation <- get pathItem (toLowerCase method) ;;
    if negb (truthy operation)
    then Ok (Text (method_not_found method path))
    else
      requestBody <- get operation "requestBody" ;;
      if negb (truthy requestBody)
      then Ok (Text ("No request body defined for " ++ method ++ " " ++ path))
      else Ok (Yaml requestBody).

(** *** get-response-schema *)

Definition no_response (statusCode method path : string) (keys : list string)
  : string :=
  "No response for status code " ++ statusCode
  ++ " (or default) found for " ++ method ++ " " ++ path ++ "." ++ newline
  ++ "Available status codes: " ++ join ", " keys.

Definition get_response_schema (openApiDoc : value)
  (path method statusCode : string) : result output :=
  paths <- get openApiDoc "paths" ;;
  pathItem <- get_opt paths path ;;
  if negb (truthy pathItem) then Ok (Text (path_not_found path))
  else
    operation <- get pathItem (toLowerCase method) ;;
    if negb (truthy operation)
    then Ok (Text (method_not_found method path))
    else
      responses <- get operation "responses" ;;
      if negb (truthy responses)
      then Ok (Text ("No responses defined for " ++ method ++ " " ++ path))
      else
        exact <- get responses statusCode ;;
        response <- (if truthy exact then Ok exact
                     else get responses "default") ;;
        if negb (truthy response)
        then
          keys <- Object_keys responses ;;
          Ok (Text (no_response statusCode method path keys))
        else Ok (Yaml response).

(** *** get-path-parameters *)

Definition no_parameters (method : option string) (path : string) : string :=
  "No parameters found for "
  ++ (if given method then toUpperCase (text_of method) ++ " "
      else EmptyString)
  ++ path.

Definition get_path_parameters (openApiDoc : value) (path : string)
  (method : option string) : result output :=
  paths <- get openApiDoc "paths" ;;
  pathItem <- get_opt paths path ;;
  if negb (truthy pathItem) then Ok (Text (path_not_found path))
  else
    shared <- get pathItem "parameters" ;;
    parameters <- iterate (shared ||| VArr []) ;;
    parameters <-
      (if given method then
         operation <- get pathItem (toLowerCase (text_of method)) ;;
         if truthy operation then
           own <- get operation "parameters" ;;
           if truthy own then
             more <- iterate own ;; Ok (parameters ++ more)%list
           else Ok parameters
         else Ok parameters
       else Ok parameters) ;;
    if (List.length parameters =? 0)%nat
    then Ok (Text (no_parameters method path))
    else Ok (Yaml (VArr parameters)).

(** *** list-components *)

Definition list_components (openApiDoc : value) : result output :=
  declared <- get openApiDoc "components" ;;
  let components := declared ||| VObj [] in
  entries <- Object_entries components ;;
  listing <-
    foldM (fun listing '(type, items) =>
             if truthy items && typeof_object items then
               names <- Object_keys items ;;
               Ok (obj_set listing type (strings names))
             else Ok listing)
          entries [] ;;
  Ok (Yaml (VObj listing)).

(** *** get-component *)

Definition get_component (openApiDoc : value) (type name : string)
  : result output :=
  declared <- get openApiDoc "components" ;;
  let components := declared ||| VObj [] in
  componentType <- get components type ;;
  if negb (truthy componentType) then
    types <- Object_keys components ;;
    Ok (Text ("Component type '" ++ type ++ "' not found. Available types: "
              ++ join ", " types))
  else
    component <- get componentType name ;;
    if negb (truthy component) then
      names <- Object_keys componentType ;;
      Ok (Text ("Component '" ++ name ++ "' not found in '" ++ type
                ++ "'. Available components: " ++ join ", " names))
    else Ok (Yaml component).

(** *** list-security-schemes *)

Definition strict_eq_string (v : value) (s : string) : bool :=
  match v with
  | VStr s' => s' =? s
  | _ => false
  end.

Definition list_security_schemes (openApiDoc : value) : result output :=
  components <- get openApiDoc "components" ;;
  declared <- get_opt components "securitySchemes" ;;
  entries <- Object_entries (declared ||| VObj []) ;;
  summary <-
    foldM (fun summary '(name, scheme) =>
             type <- get scheme "type" ;;
             description <- get scheme "description" ;;
             oauth2 <-
               (if strict_eq_string type "oauth2" then
                  flows <- get scheme "flows" ;;
                  names <- Object_keys (flows ||| VObj []) ;;
                  Ok [("flows", strings names)]
                else Ok []) ;;
             apiKey <-
               (if strict_eq_string type "apiKey" then
                  location <- get scheme "in" ;;
                  keyName <- get scheme "name" ;;
                  Ok [("in", location); ("name", keyName)]
                else Ok []) ;;
             http <-
               (if strict_eq_string type "http" then
                  httpScheme <- get scheme "scheme" ;;
                  Ok [("scheme", httpScheme)]
                else Ok []) ;;
             Ok (obj_set summary name
                   (VObj (load_mapping
                            ([("type", type); ("description", description)]
                             ++ oauth2 ++ apiKey ++ http)%list))))
          entries [] ;;
  if (List.length summary =? 0)%nat
  then Ok (Text "No security schemes defined in this API")
  else Ok (Yaml (VObj summary)).

(** *** get-examples *)

Inductive example_type : Type :=
| Request
| Response
| Component.

(** The loop over the media types of a content node; the request and the
    response branch run the same loop. *)
Definition collect_examples (content : value) : result props :=
  entries <- Object_entries content ;;
  foldM (fun examples '(contentType, content) =>
           many <- get content "examples" ;;
           if truthy many then Ok (obj_set examples contentType many)
           else
             single <- get content "example" ;;
             if truthy single then
               Ok (obj_set examples contentType
                     (VObj [("default", VObj [("value", single)])]))
             else Ok examples)
        entries [].

Definition operation_not_found (method path : string) : string :=
  "Operation " ++ toUpperCase method ++ " " ++ path ++ " not found".

(** [statusCode ? responses[statusCode] : Object.values(responses)[0]] *)
Definition select_response (responses : value) (statusCode : option string)
  : result value :=
  if given statusCode then get responses (text_of statusCode)
  else
    values <- Object_values responses ;;
    Ok (nth 0 values VUndefined).

(** What the response branch does once the response entry is chosen. *)
Definition response_examples (path method : string)
  (statusCode : option string) (responses responseObj : value)
  : result output :=
  if negb (truthy responseObj)
  then
    keys <- Object_keys responses ;;
    Ok (Text ("Response " ++ text_of statusCode ++ " not found for "
              ++ toUpperCase method ++ " " ++ path
              ++ ". Available: " ++ join ", " keys))
  else
    content <- get responseObj "content" ;;
    if negb (truthy content)
    then Ok (Text "No content defined in response")
    else
      examples <- collect_examples content ;;
      if (List.length examples =? 0)%nat
      then Ok (Text ("No examples found for " ++ toUpperCase method
                     ++ " " ++ path ++ " response"
                     ++ (if given statusCode
                         then " " ++ text_of statusCode
                         else EmptyString)))
      else Ok (Yaml (VObj examples)).

Definition get_examples (openApiDoc : value) (type : example_type)
  (path method statusCode componentType componentName : option string)
  : result output :=
  match type with
  | Request =>
      if negb (given path) || negb (given method)
      then Ok (Text "Path and method are required for request examples")
      else
        let path := text_of path in
        let method := text_of method in
        paths <- get openApiDoc "paths" ;;
        pathItem <- get_opt paths path ;;
        operation <- get_opt pathItem (toLowerCase method) ;;
        if negb (truthy operation)
        then Ok (Text (operation_not_found method path))
        else
          requestBody <- get operation "requestBody" ;;
          content <- get_opt requestBody "content" ;;
          if negb (truthy content)
          then Ok (Text ("No request body defined for "
                         ++ toUpperCase method ++ " " ++ path))
          else
            examples <- collect_examples content ;;
            if (List.length examples =? 0)%nat
            then Ok (Text ("No examples found for " ++ toUpperCase method
                           ++ " " ++ path ++ " request"))
            else Ok (Yaml (VObj examples))
  | Response =>
      if negb (given path) || negb (given method)
      then Ok (Text "Path and method are required for response examples")
      else
        let path := text_of path in
        let method := text_of method in
        paths <- get openApiDoc "paths" ;;
        pathItem <- get_opt paths path ;;
        operation <- get_opt pathItem (toLowerCase method) ;;
        if negb (truthy operation)
        then Ok (Text (operation_not_found method path))
        else
          responses <- get operation "responses" ;;
          if negb (truthy responses)
          then Ok (Text ("No responses defined for "
                         ++ toUpperCase method ++ " " ++ path))
          else
            responseObj <- select_response responses statusCode ;;
            response_examples path method statusCode responses responseObj
  | Component =>
      if negb (given componentType) || negb (given componentName)
      then Ok (Text
             "Component type and name are required for component examples")
      else
        let componentType := text_of componentType in
        let componentName := text_of componentName in
        components <- get openApiDoc "components" ;;
        byType <- get_opt components componentType ;;
        component <- get_opt byType componentName ;;
        if negb (truthy component)
        then Ok (Text ("Component " ++ componentType ++ "." ++ componentName
                       ++ " not found"))
        else
          many <- get component "examples" ;;
          examples <-
            (if truthy many then Ok many
             else
               single <- get component "example" ;;
               Ok (if truthy single then VObj [("default", single)]
                   else VNull)) ;;
          if negb (truthy examples)
          then Ok (Text ("No examples found for component " ++ componentType
                         ++ "." ++ componentName))
          else Ok (Yaml examples)
  end.

(** *** search-schema *)

Definition results : Type := list (string * list string).

Definition empty_results : results :=
  [("paths", []); ("operations", []); ("components", []);
   ("parameters", []); ("securitySchemes", [])].

(** [results[key].push(item)] *)
Fixpoint push (key item : string) (r : results) : results :=
  match r with
  | [] => []
  | (k, xs) :: rest =>
      if k =? key then (k, (xs ++ [item])%list) :: rest
      else (k, xs) :: push key item rest
  end.

Definition found (key : string) (r : results) : list string :=
  match find (fun p => fst p =? key) r with
  | Some p => snd p
  | None => []
  end.

(** The clean-up loop: every key whose array is empty is deleted. *)
Definition clean_up (r : results) : results :=
  fold_left (fun acc key =>
               if (List.length (found key acc) =? 0)%nat
               then obj_delete key acc else acc)
            (map fst r) r.

Definition no_matches (pattern : string) : string :=
  "No matches found for " ++ dquote ++ pattern ++ dquote.

(** [xs.some(f)]: only an array has the method. *)
Definition some (xs : value) (f : value -> bool) : result bool :=
  match xs with
  | VArr l => Ok (existsb f l)
  | _ => Throw TypeError
  end.

Section Search.

(** [new RegExp(pattern, "i")]: [None] when the pattern is malformed,
    otherwise the predicate computed by [test] on a string. *)
Variable RegExp : string -> option (string -> bool).

Section Scan.

Variable searchRegex : string -> bool.

Definition test (v : value) : bool := searchRegex (to_string v).

Definition scan_parameters (path method : string) (operation : value)
  (r : results) : result results :=
  declared <- get operation "parameters" ;;
  params <- iterate (declared ||| VArr []) ;;
  foldM (fun r param =>
           name <- get param "name" ;;
           if test (name ||| VStr EmptyString)
           then Ok (push "parameters"
                      (to_string name ++ " (" ++ toUpperCase method
                       ++ " " ++ path ++ ")") r)
           else
             description <- get param "description" ;;
             if test (description ||| VStr EmptyString)
             then Ok (push "parameters"
                        (to_string name ++ " (" ++ toUpperCase method
                         ++ " " ++ path ++ ")") r)
             else Ok r)
        params r.

Definition operation_matches (operation : value) : result bool :=
  summary <- get operation "summary" ;;
  if test (summary ||| VStr EmptyString) then Ok true
  else
    description <- get operation "description" ;;
    if test (description ||| VStr EmptyString) then Ok true
    else
      tags <- get operation "tags" ;;
      if truthy tags then some tags test else Ok false.

Definition scan_paths (openApiDoc : value) (r : results)
  : result results :=
  paths <- get openApiDoc "paths" ;;
  keys <- Object_keys (paths ||| VObj []) ;;
  foldM (fun r path =>
           let r := if searchRegex path then push "paths" path r
                    else r in
           pathItem <- get paths path ;;
           foldM (fun r method =>
                    operation <- get pathItem method ;;
                    if negb (truthy operation) then Ok r
                    else
                      hit <- operation_matches operation ;;
                      let r :=
                        if hit
                        then push "operations"
                               (toUpperCase method ++ " " ++ path) r
                        else r in
                      scan_parameters path method operation r)
                 HTTP_METHODS r)
        keys r.

Definition scan_components (components : value) (r : results)
  : result results :=
  entries <- Object_entries components ;;
  foldM (fun r '(type, typeObj) =>
           if negb (truthy typeObj) || negb (typeof_object typeObj)
           then Ok r
           else
             members <- Object_entries typeObj ;;
             foldM (fun r '(name, component) =>
                      if searchRegex name
                      then Ok (push "components" (type ++ "." ++ name) r)
                      else
                        description <- get component "description" ;;
                        if test (description ||| VStr EmptyString)
                        then Ok (push "components"
                                   (type ++ "." ++ name) r)
                        else Ok r)
                   members r)
        entries r.

Definition scan_security (components : value) (r : results)
  : result results :=
  declared <- get components "securitySchemes" ;;
  entries <- Object_entries (declared ||| VObj []) ;;
  foldM (fun r '(name, scheme) =>
           if searchRegex name
           then Ok (push "securitySchemes" name r)
           else
             description <- get scheme "description" ;;
             if test (description ||| VStr EmptyString)
             then Ok (push "securitySchemes" name r)
             else Ok r)
        entries r.

(** The four search loops, in the order of the source. *)
Definition scan (openApiDoc : value) : result results :=
  r <- scan_paths openApiDoc empty_results ;;
  declared <- get openApiDoc "components" ;;
  let components := declared ||| VObj [] in
  r <- scan_components components r ;;
  scan_security components r.

End Scan.

Definition search_schema (openApiDoc : value) (pattern : string)
  : result output :=
  match RegExp pattern with
  | None => Throw SyntaxError
  | Some searchRegex =>
      r <- scan searchRegex openApiDoc ;;
      let r := clean_up r in
      if (List.length r =? 0)%nat
      then Ok (Text (no_matches pattern))
      else Ok (Yaml (VObj (map (fun p => (fst p, strings (snd p))) r)))
  end.

End Search.

(** ** Reading the claims

    [field] is the total accessor of the specification: an absent field,
    or a field of something that has none, reads as [undefined].
    [sequence] reads a field as a list, an absent one being empty. *)

Definition field (v : value) (k : string) : value :=
  match get v k with
  | Ok x => x
  | Throw _ => VUndefined
  end.

Definition sequence (v : value) : list value :=
  match v with
  | VArr xs => xs
  | _ => []
  end.

Definition sequence_or_absent (v : value) : bool :=
  match v with
  | VArr _ => true
  | _ => negb (truthy v)
  end.

Definition is_index (k : string) : bool :=
  match array_index k with
  | Some _ => true
  | None => false
  end.

Definition index_of (k : string) : N :=
  match array_index k with
  | Some n => n
  | None => 0%N
  end.


Definition indexed_entry (e : string * value) : bool := is_index (fst e).
Definition named_entry (e : string * value) : bool := negb (is_index (fst e)).

(** The order in which an object filled in document order enumerates
    its keys: the array-index keys sorted by value, then the others as
    written. *)
Fixpoint insert_sorted (e : string * value) (l : props) : props :=
  match l with
  | [] => [e]
  | e' :: rest =>
      if (index_of (fst e') <? index_of (fst e))%N
      then e' :: insert_sorted e rest
      else e :: l
  end.

Definition sort_indices (l acc : props) : props :=
  fold_left (fun acc e => insert_sorted e acc) l acc.

Definition own_property_order (entries : props) : props :=
  (sort_indices (filter indexed_entry entries) []
   ++ filter named_entry entries)%list.

(** The two parameter lists of a path, read with the total accessor. *)
Definition path_level (doc : value) (path : string) : value :=
  field (field (field doc "paths") path) "parameters".

Definition method_level (doc : value) (path : string)
  (method : option string) : value :=
  if given method
  then field (field (field (field doc "paths") path)
                    (toLowerCase (text_of method)))
             "parameters"
  else VUndefined.

(** The keys of a Path Item that name an HTTP method, whatever their
    case, and the summary recorded for one of them. *)
Definition method_keys (keys : list string) : list string :=
  filter (fun key => includes HTTP_METHODS (toLowerCase key)) keys.


(** The two loops of [list-endpoints], one iteration at a time: the
    summary assigned for a method key, and the object assigned for a
    path. *)
Definition read_summary (pathItem : value) (method : string) : result value :=
  operation <- get pathItem method ;;
  summary <- get operation "summary" ;;
  Ok (summary ||| VStr "No summary").

Definition summaries (pathItem : value) : result value :=
  keys <- Object_keys pathItem ;;
  byMethod <-
    foldM (fun acc method =>
             v <- read_summary pathItem method ;;
             Ok (obj_set acc (toUpperCase method) v))
          (method_keys keys) [] ;;
  Ok (VObj byMethod).

(** What one content node adds to the examples, if anything. *)
Definition contribution (node : value) : option value :=
  if truthy (field node "examples") then Some (field node "examples")
  else if truthy (field node "example")
       then Some (VObj [("default",
                         VObj [("value", field node "example")])])
       else None.

(** *** Search results *)

(** [extends r r']: the same categories, and nothing recorded in [r] is
    lost in [r']. *)
Definition extends (r r' : results) : Prop :=
  map fst r' = map fst r /\
  forall k x, In x (found k r) -> In x (found k r').

Definition nonempty (category : string * list string) : bool :=
  negb (List.length (snd category) =? 0)%nat.

Definition render (category : string * list string) : string * value :=
  (fst category, strings (snd category)).

(** The loop shared by the component scan and the security-scheme scan:
    an entry is recorded when its name matches or, failing that, when its
    description does. *)
Definition record_entry (searchRegex : string -> bool) (key : string)
  (label : string -> string) (r : results) (entry : string * value)
  : result results :=
  let '(name, v) := entry in
  if searchRegex name then Ok (push key (label name) r)
  else
    description <- get v "description" ;;
    if test searchRegex (description ||| VStr EmptyString)
    then Ok (push key (label name) r)
    else Ok r.

(** An instance of the regular-expression parameter for patterns made of
    letters and digits only: such a pattern, compiled with the [i] flag,
    accepts exactly the strings that contain it, case ignored. *)
Fixpoint contains (needle hay : string) : bool :=
  String.prefix needle hay
  || match hay with
     | EmptyString => false
     | String _ rest => contains needle rest
     end.

Definition literal_RegExp (pattern : string) : option (string -> bool) :=
  Some (fun s => contains (toLowerCase pattern) (toLowerCase s)).

(** *** Whole tools *)

(** [null] and [undefined], the two values no property can be read from. *)
Definition nullish (v : value) : bool :=
  match v with
  | VUndefined | VNull => true
  | _ => false
  end.

(** The entries and the keys of a value, none for [null] and [undefined]. *)
Definition entries_of (v : value) : props :=
  match Object_entries v with
  | Ok ps => ps
  | Throw _ => []
  end.

Definition names_of (v : value) : list string := map fst (entries_of v).

(** A component category that [list-components] and the component scan
    of [search-schema] go through: an object or an array. *)
Definition listable (items : value) : bool :=
  truthy items && typeof_object items.

(** The test applied to a component and to a security scheme by
    [search-schema]: the name, then the description. *)
Definition entry_matches (searchRegex : string -> bool)
  (entry : string * value) : bool :=
  searchRegex (fst entry)
  || test searchRegex (field (snd entry) "description" ||| VStr EmptyString).

(** The fields [list-security-schemes] shows for one scheme.  The source
    spreads three conditional objects, one per type test; the tests
    exclude one another, so at most one of them adds fields. *)
Definition scheme_entry (scheme : value) : props :=
  let type := field scheme "type" in
  ([("type", type); ("description", field scheme "description")]
   ++ (if strict_eq_string type "oauth2"
       then [("flows", strings (names_of (field scheme "flows" ||| VObj [])))]
       else if strict_eq_string type "apiKey"
            then [("in", field scheme "in"); ("name", field scheme "name")]
            else if strict_eq_string type "http"
                 then [("scheme", field scheme "scheme")]
                 else []))%list.

(** The matches of the component scan, category by category. *)
Definition component_matches (searchRegex : string -> bool)
  (category : string * value) : list string :=
  if listable (snd category)
  then map (fun entry => fst category ++ "." ++ fst entry)
           (filter (entry_matches searchRegex) (entries_of (snd category)))
  else [].

(** [keeps k r r']: the same categories, and category [k] untouched. *)
Definition keeps (k : string) (r r' : results) : Prop :=
  map fst r' = map fst r /\ found k r' = found k r.


(** *** Inherited members *)

(** The names every object inherits from [Object.prototype]. *)
Definition Object_prototype : list string :=
  ["constructor"; "__defineGetter__"; "__defineSetter__"; "hasOwnProperty";
   "__lookupGetter__"; "__lookupSetter__"; "isPrototypeOf";
   "propertyIsEnumerable"; "toString"; "valueOf"; "__proto__";
   "toLocaleString"].

(** [plain_read v k]: the read [v[k]] is decided by own properties, so
    that [get v k] is what the engine computes.  On an object this is a
    key the object owns, or a name [Object.prototype] does not have; on a
    list or a string, an index or [length] (their prototypes have many
    more members, which are not listed here); a read on [null] or
    [undefined] finds no member at all.  Numbers and booleans own nothing,
    so no read on them is plain. *)
Definition plain_read (v : value) (k : string) : bool :=
  match v with
  | VUndefined | VNull => true
  | VObj ps =>
      match lookup k ps with
      | Some _ => true
      | None => negb (includes Object_prototype k)
      end
  | VArr _ | VStr _ => (k =? "length") || is_index k
  | VBool _ | VNum _ => false
  end.

(** ** Sample documents *)

Definition fluffy : value :=
  VObj [("id", VNum 1); ("name", VStr "Fluffy"); ("status", VStr "available");
        ("category", VStr "cat")].

Definition petId_parameter : value :=
  VObj [("name", VStr "petId"); ("in", VStr "path");
        ("description", VStr "ID of pet to return");
        ("required", VBool true)].

Definition limit_parameter : value :=
  VObj [("name", VStr "limit"); ("in", VStr "query");
        ("description", VStr "Maximum number of pets to return");
        ("required", VBool false)].

Definition json_example (example : value) : value :=
  VObj [("application/json", VObj [("example", example)])].

(** A path item with shared parameters next to its operations. *)
Definition shared_parameters_doc : value :=
  VObj [("openapi", VStr "3.0.0");
        ("paths",
          VObj [("/pets/{petId}",
                 VObj [("parameters", VArr [petId_parameter]);
                       ("get",
                         VObj [("summary", VStr "Get a pet by ID");
                               ("parameters", VArr [limit_parameter])]);
                       ("delete",
                         VObj [("summary", VStr "Delete a pet")])])])].

(** [get:] left empty in the YAML source loads as [null]. *)
Definition null_operation_doc : value :=
  VObj [("paths", VObj [("/pets", VObj [("get", VNull)])])].

Definition null_component_doc : value :=
  VObj [("components", VObj [("schemas", VObj [("Pet", VNull)])])].

Definition examples_doc : value :=
  VObj [("paths",
          VObj [("/pets",
                 VObj [("post",
                         VObj [("summary", VStr "Create a pet");
                               ("requestBody",
                                 VObj [("content", json_example fluffy)])])])]);
        ("components",
          VObj [("schemas",
                 VObj [("Pet",
                         VObj [("type", VStr "object");
                               ("example", fluffy)])])])].

(** The security scheme of the sample Petstore document. *)
Definition security_doc : value :=
  VObj [("paths",
          VObj [("/pets",
                 VObj [("get",
                         VObj [("summary", VStr "List all pets");
                               ("tags", VArr [VStr "pets"]);
                               ("parameters", VArr [limit_parameter])])])]);
        ("components",
          VObj [("schemas", VObj [("Pet", VObj [("type", VStr "object")])]);
                ("securitySchemes",
                  VObj [("ApiKeyAuth",
                         VObj [("type", VStr "apiKey");
                               ("in", VStr "header");
                               ("name", VStr "X-API-Key");
                               ("description",
                                 VStr "API key for authorization")])])])].

Definition pet_found : value :=
  VObj [("description", VStr "Expected response to a valid request");
        ("content", json_example fluffy)].

Definition pet_missing : value :=
  VObj [("description", VStr "Pet not found");
        ("content",
          json_example (VObj [("code", VNum 404);
                              ("message", VStr "Pet not found")]))].

Definition unexpected_error : value :=
  VObj [("description", VStr "Unexpected error")].

(** An operation that documents its error response before the success. *)
Definition error_first_responses : props :=
  [("404", pet_missing); ("200", pet_found)].

Definition with_default_responses : props :=
  [("200", pet_found); ("default", unexpected_error)].

Definition pet_by_id_doc (responses : props) : value :=
  VObj [("paths",
          VObj [("/pets/{petId}",
                 VObj [("get",
                         VObj [("summary", VStr "Get a pet by ID");
                               ("responses",
                                 VObj (load_mapping responses))])])])].


Definition pets_item : value :=
  VObj [("get", VObj [("summary", VStr "List all pets")]);
        ("post", VObj [("operationId", VStr "createPet")])].

Definition two_paths_doc : value :=
  VObj [("paths",
          VObj [("/pets", pets_item);
                ("/pets/{petId}",
                 VObj [("parameters", VArr [petId_parameter]);
                       ("delete",
                         VObj [("summary", VStr "Delete a pet")])])])].

Definition two_paths_listing : props :=
  [("/pets", VObj [("GET", VStr "List all pets");
                   ("POST", VStr "No summary")]);
   ("/pets/{petId}", VObj [("DELETE", VStr "Delete a pet")])].

(** A request body whose single example is the number zero. *)
Definition zero_example_doc : value :=
  VObj [("paths",
          VObj [("/counters",
                 VObj [("put",
                         VObj [("summary", VStr "Reset a counter");
                               ("requestBody",
                                 VObj [("content",
                                        json_example (VNum 0))])])])])].

(** A Path Item that writes its method in upper case. *)
Definition upper_case_doc : value :=
  VObj [("paths",
          VObj [("/pets",
                 VObj [("GET", VObj [("summary", VStr "List all pets")])])])].

(** A document without a [paths] section. *)
Definition components_only_doc : value :=
  VObj [("components",
          VObj [("schemas", VObj [("Pet", VObj [("type", VStr "object")]);
                                  ("Draft", VNull)]);
                ("x-version", VStr "1.0.0")])].

(** A Path Item whose shared parameters are written as a mapping keyed
    by parameter name, not as a list. *)
Definition mapping_parameters_doc : value :=
  VObj [("paths",
          VObj [("/pets",
                 VObj [("parameters", VObj [("limit", limit_parameter)]);
                       ("get",
                         VObj [("summary", VStr "List all pets")])])])].

(** An operation whose single tag is written as a string, not as a list. *)
Definition string_tag_doc : value :=
  VObj [("paths",
          VObj [("/pets",
                 VObj [("get",
                         VObj [("summary", VStr "List all pets");
                               ("tags", VStr "pets")])])])].

(** The same operation next to the security scheme of the sample
    document. *)
Definition string_tag_security_doc : value :=
  VObj [("paths",
          VObj [("/pets",
                 VObj [("get",
                         VObj [("summary", VStr "List all pets");
                               ("tags", VStr "pets")])])]);
        ("components",
          VObj [("securitySchemes",
                  VObj [("ApiKeyAuth",
                         VObj [("type", VStr "apiKey");
                               ("in", VStr "header");
                               ("name", VStr "X-API-Key");
                               ("description",
                                 VStr "API key for authorization")])])])].

(** ** Basic facts *)

Lemma bind_Ok {A B} (m : result A) (f : A -> result B) (b : B) :
  bind m f = Ok b -> exists a, m = Ok a /\ f a = Ok b.
Proof.
  destruct m as [a | e]; simpl; intro H.
  - exists a. split; [reflexivity | exact H].
  - discriminate H.
Qed.

Lemma append_assoc (a b c : string) : (a ++ b) ++ c = a ++ b ++ c.
Proof.
  induction a as [ | x a IH ]; simpl.
  - reflexivity.
  - rewrite IH. reflexivity.
Qed.

Lemma get_truthy (v : value) (k : string) :
  truthy v = true -> get v k = Ok (field v k).
Proof.
  unfold field. destruct v; simpl; intro H; try discriminate H; reflexivity.
Qed.

Lemma get_field (v x : value) (k : string) :
  get v k = Ok x -> field v k = x.
Proof.
  unfold field. intro H. rewrite H. reflexivity.
Qed.

Lemma get_opt_truthy (v : value) (k : string) :
  truthy v = true -> get_opt v k = get v k.
Proof.
  destruct v; simpl; intro H; try discriminate H; reflexivity.
Qed.

Lemma Object_keys_truthy (v : value) :
  truthy v = true -> exists ks, Object_keys v = Ok ks.
Proof.
  unfold Object_keys.
  destruct v; simpl; intro H; try discriminate H; eexists; reflexivity.
Qed.

Lemma negb_truthy_false (v : value) :
  truthy v = true -> negb (truthy v) = false.
Proof. intro H. rewrite H. reflexivity. Qed.

Lemma negb_truthy_true (v : value) :
  truthy v = false -> negb (truthy v) = true.
Proof. intro H. rewrite H. reflexivity. Qed.

Lemma given_Some (s : string) :
  s <> EmptyString -> given (Some s) = true.
Proof.
  intro H. simpl. destruct (String.eqb_spec s EmptyString) as [E | _].
  - contradiction.
  - reflexivity.
Qed.

Lemma filter_none {A} (f : A -> bool) (l : list A) :
  (forall x, In x l -> f x = false) -> filter f l = [].
Proof.
  induction l as [ | x l IH ]; simpl; intro H.
  - reflexivity.
  - rewrite (H x (or_introl eq_refl)). apply IH.
    intros y Hy. apply H. right. exact Hy.
Qed.


Lemma lookup_keys (k : string) (ps : props) :
  lookup k ps <> None <-> In k (map fst ps).
Proof.
  induction ps as [ | [k' v'] ps IH ]; simpl.
  - split; [ intro H; contradiction | intro H; contradiction ].
  - destruct (String.eqb_spec k' k) as [-> | N].
    + split; [ intros _; left; reflexivity | intros _; discriminate ].
    + rewrite IH. split; [ intro H; right; exact H | ].
      intros [H | H]; [ contradiction | exact H ].
Qed.

(** ** The tools on the sample documents *)

Example list_endpoints_two_paths :
  list_endpoints two_paths_doc = Ok (Yaml (VObj two_paths_listing)).
Proof. reflexivity. Qed.

Example search_pet :
  search_schema literal_RegExp security_doc "pet"
  = Ok (Yaml (VObj [("paths", strings ["/pets"]);
                    ("operations", strings ["GET /pets"]);
                    ("components", strings ["schemas.Pet"]);
                    ("parameters", strings ["limit (GET /pets)"])])).
Proof. reflexivity. Qed.

Example search_apikey :
  search_schema literal_RegExp security_doc "apikey"
  = Ok (Yaml (VObj [("components", strings ["securitySchemes.ApiKeyAuth"]);
                    ("securitySchemes", strings ["ApiKeyAuth"])])).
Proof. reflexivity. Qed.

Example load_mapping_status_codes :
  map fst (load_mapping [("default", VNull); ("404", VNull);
                         ("200", VNull); ("2XX", VNull)])
  = ["200"; "404"; "default"; "2XX"].
Proof. reflexivity. Qed.

Example get_endpoint_echoes_method :
  get_endpoint two_paths_doc "/pets" "Get"
  = Ok (Yaml (VObj [("path", VStr "/pets");
                    ("method", VStr "GET");
                    ("summary", VStr "List all pets");
                    ("description", VUndefined);
                    ("tags", VUndefined);
                    ("parameters", VUndefined);
                    ("requestBody", VUndefined);
                    ("responses", VUndefined);
                    ("security", VUndefined);
                    ("deprecated", VUndefined)])).
Proof. reflexivity. Qed.

(** ** Method lookup *)

Ltac navigate Hpaths Hitem Htruthy :=
  rewrite Hpaths; simpl; rewrite Hitem; simpl;
  rewrite (negb_truthy_false _ Htruthy).

(** C1, as the code has it: the four tools read the Path Item's
    property named by the lower-cased method argument, whatever the name;
    the read is a plain one, so that an own property decides it.  They
    answer with their method diagnostic exactly when that property is
    missing or falsy; when it holds a truthy value, that value is used as
    the operation, and [get-endpoint] echoes the upper-cased argument.
    [get-examples] does so for a non-empty path and method: an empty one
    counts as not given, and the tool asks for both. *)
Theorem method_lookup_reads_lowercased_key :
  forall doc paths path method pathItem operation,
    get doc "paths" = Ok paths ->
    get_opt paths path = Ok pathItem ->
    truthy pathItem = true ->
    get pathItem (toLowerCase method) = Ok operation ->
    plain_read pathItem (toLowerCase method) = true ->
    (truthy operation = false ->
     get_endpoint doc path method
       = Ok (Text (method_not_found method path)) /\
     get_request_body doc path method
       = Ok (Text (method_not_found method path)) /\
     (forall statusCode,
         get_response_schema doc path method statusCode
         = Ok (Text (method_not_found method path))) /\
     (path <> EmptyString -> method <> EmptyString ->
      forall statusCode componentType componentName,
        get_examples doc Request (Some path) (Some method)
                     statusCode componentType componentName
        = Ok (Text (operation_not_found method path)) /\
        get_examples doc Response (Some path) (Some method)
                     statusCode componentType componentName
        = Ok (Text (operation_not_found method path))))
    /\
    (truthy operation = true ->
     get_endpoint doc path method
       = Ok (Yaml (VObj [("path", VStr path);
                         ("method", VStr (toUpperCase method));
                         ("summary", field operation "summary");
                         ("description", field operation "description");
                         ("tags", field operation "tags");
                         ("parameters", field operation "parameters");
                         ("requestBody", field operation "requestBody");
                         ("responses", field operation "responses");
                         ("security", field operation "security");
                         ("deprecated", field operation "deprecated")])) /\
     get_request_body doc path method
       <> Ok (Text (method_not_found method path)) /\
     (forall statusCode,
         get_response_schema doc path method statusCode
         <> Ok (Text (method_not_found method path))) /\
     (forall statusCode componentType componentName,
        get_examples doc Request (Some path) (Some method)
                     statusCode componentType componentName
        <> Ok (Text (operation_not_found method path)) /\
        get_examples doc Response (Some path) (Some method)
                     statusCode componentType componentName
        <> Ok (Text (operation_not_found method path))))
    /\
    (path = EmptyString \/ method = EmptyString ->
     forall statusCode componentType componentName,
       get_examples doc Request (Some path) (Some method)
                    statusCode componentType componentName
       = Ok (Text "Path and method are required for request examples") /\
       get_examples doc Response (Some path) (Some method)
                    statusCode componentType componentName
       = Ok (Text "Path and method are required for response examples")).
Proof.
  intros doc paths path method pathItem operation Hpaths Hitem Hpresent Hop
         Hplain.
  split; [ | split ]; intro Htruthy.
  3: {
    intros statusCode componentType componentName.
    assert (Hgiven : negb (given (Some path)) || negb (given (Some method))
                     = true).
    { destruct Htruthy as [-> | ->]; simpl;
        [ reflexivity | apply orb_true_r ]. }
    unfold get_examples. rewrite Hgiven. split; reflexivity. }
  - split; [ | split; [ | split; [ intro statusCode | intros H H0 statusCode componentType componentName; split ] ] ].
    + unfold get_endpoint. navigate Hpaths Hitem Hpresent.
      rewrite Hop. simpl. rewrite Htruthy. reflexivity.
    + unfold get_request_body. navigate Hpaths Hitem Hpresent.
      rewrite Hop. simpl. rewrite Htruthy. reflexivity.
    + unfold get_response_schema.
      navigate Hpaths Hitem Hpresent.
      rewrite Hop. simpl. rewrite Htruthy. reflexivity.
    + unfold get_examples.
      rewrite (given_Some _ H), (given_Some _ H0). simpl.
      rewrite Hpaths. simpl. rewrite Hitem. simpl.
      rewrite (get_opt_truthy _ _ Hpresent), Hop. simpl.
      rewrite Htruthy. reflexivity.
    + unfold get_examples.
      rewrite (given_Some _ H), (given_Some _ H0). simpl.
      rewrite Hpaths. simpl. rewrite Hitem. simpl.
      rewrite (get_opt_truthy _ _ Hpresent), Hop. simpl.
      rewrite Htruthy. reflexivity.
  - split; [ | split; [ | split; [ intro statusCode | intros statusCode componentType componentName; split ] ] ].
    + unfold get_endpoint. navigate Hpaths Hitem Hpresent.
      rewrite Hop. simpl. rewrite Htruthy. simpl.
      rewrite !(get_truthy _ _ Htruthy). reflexivity.
    + unfold get_request_body. navigate Hpaths Hitem Hpresent.
      rewrite Hop. simpl. rewrite Htruthy. simpl.
      rewrite (get_truthy _ _ Htruthy). simpl.
      destruct (truthy (field operation "requestBody")); simpl;
        unfold method_not_found; simpl; discriminate.
    + unfold get_response_schema. navigate Hpaths Hitem Hpresent.
      rewrite Hop. simpl. rewrite Htruthy. simpl.
      rewrite (get_truthy _ _ Htruthy). simpl.
      destruct (truthy (field operation "responses")) eqn:Hr; simpl;
        [ | unfold method_not_found; simpl; discriminate ].
      rewrite !(get_truthy _ _ Hr). simpl.
      destruct (truthy (field (field operation "responses") statusCode))
        eqn:He; simpl.
      * rewrite He. simpl. discriminate.
      * destruct (truthy (field (field operation "responses") "default"));
          simpl; [ discriminate | ].
        destruct (Object_keys_truthy _ Hr) as [ks Hks]. rewrite Hks. simpl.
        unfold method_not_found, no_response. simpl. discriminate.
    + unfold get_examples.
      destruct (negb (given (Some path)) || negb (given (Some method)));
        [ unfold operation_not_found; simpl; discriminate | ].
      simpl text_of. rewrite Hpaths. simpl. rewrite Hitem. simpl.
      rewrite (get_opt_truthy _ _ Hpresent), Hop. simpl.
      rewrite Htruthy. simpl.
      rewrite (get_truthy _ _ Htruthy). simpl.
      destruct (get_opt (field operation "requestBody") "content")
        as [content | e]; simpl; [ | discriminate ].
      destruct (truthy content); simpl;
        [ | unfold operation_not_found; simpl; discriminate ].
      destruct (collect_examples content) as [examples | e]; simpl;
        [ | discriminate ].
      destruct (List.length examples =? 0)%nat;
        [ unfold operation_not_found; simpl; discriminate | discriminate ].
    + unfold get_examples.
      destruct (negb (given (Some path)) || negb (given (Some method)));
        [ unfold operation_not_found; simpl; discriminate | ].
      simpl text_of. rewrite Hpaths. simpl. rewrite Hitem. simpl.
      rewrite (get_opt_truthy _ _ Hpresent), Hop. simpl.
      rewrite Htruthy. simpl.
      rewrite (get_truthy _ _ Htruthy). simpl.
      destruct (truthy (field operation "responses")) eqn:Hr; simpl;
        [ | unfold operation_not_found; simpl; discriminate ].
      destruct (select_response (field operation "responses") statusCode)
        as [responseObj | e]; simpl; [ | discriminate ].
      unfold response_examples.
      destruct (truthy responseObj) eqn:Ho; simpl.
      * rewrite (get_truthy _ _ Ho). simpl.
        destruct (truthy (field responseObj "content")); simpl;
          [ | unfold operation_not_found; simpl; discriminate ].
        destruct (collect_examples (field responseObj "content"))
          as [examples | e]; simpl; [ | discriminate ].
        destruct (List.length examples =? 0)%nat;
          [ unfold operation_not_found; simpl; discriminate | discriminate ].
      * destruct (Object_keys_truthy _ Hr) as [ks Hks]. rewrite Hks. simpl.
        unfold operation_not_found. simpl. discriminate.
Qed.

Lemma method_lookup_witness :
  get_endpoint shared_parameters_doc "/pets/{petId}" "PATCH"
  = Ok (Text (method_not_found "PATCH" "/pets/{petId}")).
Proof.
  refine (proj1 (proj1 (method_lookup_reads_lowercased_key
                          shared_parameters_doc _ "/pets/{petId}" "PATCH" _ _
                          eq_refl eq_refl eq_refl eq_refl eq_refl)
                   eq_refl)).
Defined.

(** C1 fails on the code: [parameters] is not an HTTP method, yet
    [get-endpoint] takes the shared parameter list stored under that key
    for an operation and describes it instead of reporting the method as
    not found. *)
Lemma parameters_key_is_returned_as_operation :
  includes HTTP_METHODS (toLowerCase "parameters") = false /\
  get_endpoint shared_parameters_doc "/pets/{petId}" "parameters"
  = Ok (Yaml (VObj [("path", VStr "/pets/{petId}");
                    ("method", VStr "PARAMETERS");
                    ("summary", VUndefined);
                    ("description", VUndefined);
                    ("tags", VUndefined);
                    ("parameters", VUndefined);
                    ("requestBody", VUndefined);
                    ("responses", VUndefined);
                    ("security", VUndefined);
                    ("deprecated", VUndefined)])).
Proof. split; reflexivity. Qed.

(** ** Missing data *)

(** C2 on the code: a method key that maps to [null] makes
    [list-endpoints] throw when it reads the summary, and a component
    whose value is [null] makes [search-schema] throw when it reads the
    description (the pattern does not match the component's name, so the
    description is consulted). *)
Theorem null_operation_and_null_component_throw :
  list_endpoints null_operation_doc = Throw TypeError /\
  search_schema literal_RegExp null_component_doc "error" = Throw TypeError.
Proof. split; reflexivity. Qed.

(** ** Path parameters *)

Lemma get_opt_field (v : value) (k : string) :
  get_opt v k = Ok (field v k).
Proof. unfold field. destruct v; reflexivity. Qed.

Lemma falsy_field (v : value) (k : string) :
  truthy v = false -> truthy (field v k) = false.
Proof.
  unfold field. destruct v; simpl; intro H; try discriminate H;
    try reflexivity.
  destruct (String.eqb_spec s EmptyString) as [-> | ]; [ | discriminate H ].
  simpl. destruct (k =? "length"); [ reflexivity | ].
  destruct (array_index k) as [n | ]; [ | reflexivity ].
  destruct (N.to_nat n); reflexivity.
Qed.

Lemma falsy_sequence (v : value) :
  truthy v = false -> sequence v = [].
Proof. destruct v; simpl; intro H; try discriminate H; reflexivity. Qed.

Lemma iterate_sequence (v : value) :
  sequence_or_absent v = true ->
  iterate (v ||| VArr []) = Ok (sequence v).
Proof.
  unfold or_else.
  destruct v; simpl; intro H; try reflexivity; try discriminate H;
    apply negb_true_iff in H; rewrite H; reflexivity.
Qed.

Lemma append_sequence (v : value) (parameters : list value) :
  sequence_or_absent v = true ->
  (if truthy v
   then more <- iterate v ;; Ok (parameters ++ more)%list
   else Ok parameters)
  = Ok (parameters ++ sequence v)%list.
Proof.
  destruct v; simpl; intro H; rewrite ?app_nil_r; try reflexivity;
    try discriminate H;
    apply negb_true_iff in H; rewrite H; reflexivity.
Qed.

Lemma length_zero {A} (l : list A) :
  (List.length l =? 0)%nat = true <-> l = [].
Proof.
  destruct l; simpl; split; intro H; try reflexivity; discriminate H.
Qed.

(** A read that finds a truthy value found an own property. *)
Lemma truthy_field_plain_read (v : value) (k : string) :
  truthy (field v k) = true -> plain_read v k = true.
Proof.
  unfold field, plain_read, is_index.
  destruct v as [ | | b | n | s | xs | ps ]; simpl; intro H;
    try discriminate H; try reflexivity.
  - destruct (k =? "length"); [ reflexivity | ].
    destruct (array_index k); [ reflexivity | discriminate H ].
  - destruct (k =? "length"); [ reflexivity | ].
    destruct (array_index k); [ reflexivity | discriminate H ].
  - destruct (lookup k ps); [ reflexivity | discriminate H ].
Qed.

(** What [get-path-parameters] computes on any document, in terms of the
    two lists. *)
Lemma get_path_parameters_spec :
  forall doc path method paths,
    get doc "paths" = Ok paths ->
    sequence_or_absent (path_level doc path) = true ->
    sequence_or_absent (method_level doc path method) = true ->
    let all := (sequence (path_level doc path)
                ++ sequence (method_level doc path method))%list in
    get_path_parameters doc path method
    = Ok (if (List.length all =? 0)%nat
          then Text (if truthy (field paths path)
                     then no_parameters method path
                     else path_not_found path)
          else Yaml (VArr all)).
Proof.
  intros doc path method paths Hpaths Hshared Hown all. subst all.
  unfold path_level, method_level in *.
  rewrite (get_field _ _ _ Hpaths) in *.
  unfold get_path_parameters. rewrite Hpaths. simpl.
  rewrite get_opt_field. simpl.
  set (pathItem := field paths path) in *.
  destruct (truthy pathItem) eqn:Hitem; simpl.
  - rewrite (get_truthy _ _ Hitem). simpl.
    rewrite (iterate_sequence _ Hshared). simpl.
    destruct (given method) eqn:Hgiven.
    + rewrite (get_truthy _ _ Hitem). simpl.
      set (operation := field pathItem (toLowerCase (text_of method))) in *.
      destruct (truthy operation) eqn:Hop.
      * rewrite (get_truthy _ _ Hop). simpl.
        rewrite (append_sequence _ _ Hown). simpl.
        destruct (_ =? 0)%nat; reflexivity.
      * simpl. rewrite (falsy_sequence _ (falsy_field _ "parameters" Hop)).
        rewrite app_nil_r. destruct (_ =? 0)%nat; reflexivity.
    + simpl. rewrite app_nil_r. destruct (_ =? 0)%nat; reflexivity.
  - rewrite (falsy_sequence _ (falsy_field _ "parameters" Hitem)). simpl.
    destruct (given method).
    + rewrite (falsy_sequence _
                 (falsy_field _ "parameters" (falsy_field _ _ Hitem))).
      reflexivity.
    + reflexivity.
Qed.

(** C5, as the code has it: on every loaded document in which each of
    the two [parameters] fields is a list or absent, for every path that
    is read plainly and every method argument, [get-path-parameters]
    answers with the Path-Item-level parameters followed by the
    method-level parameters, nothing merged or dropped, so the list has
    the sum of the two lengths.  When both lists are empty the answer is
    the sentence "No parameters found for", or "Path ... not found" when
    the Path Item is missing or falsy.  A path that is present is read
    plainly ([truthy_field_plain_read]). *)
Theorem path_parameters_concatenate :
  forall doc path method paths,
    get doc "paths" = Ok paths ->
    plain_read paths path = true ->
    sequence_or_absent (path_level doc path) = true ->
    sequence_or_absent (method_level doc path method) = true ->
    let shared := sequence (path_level doc path) in
    let own := sequence (method_level doc path method) in
    ((shared ++ own)%list <> [] ->
     exists parameters,
       get_path_parameters doc path method = Ok (Yaml (VArr parameters)) /\
       parameters = (shared ++ own)%list /\
       List.length parameters = (List.length shared + List.length own)%nat)
    /\
    ((shared ++ own)%list = [] ->
     get_path_parameters doc path method
     = Ok (Text (if truthy (field paths path)
                 then no_parameters method path
                 else path_not_found path))).
Proof.
  intros doc path method paths Hpaths Hplain Hshared Hown shared own.
  pose proof (get_path_parameters_spec doc path method paths
                Hpaths Hshared Hown) as Hspec.
  simpl in Hspec. fold shared own in Hspec.
  split; intro Hall.
  - exists (shared ++ own)%list. split; [ | split ].
    + rewrite Hspec.
      destruct (List.length (shared ++ own) =? 0)%nat eqn:Hlen.
      * apply length_zero in Hlen. contradiction.
      * reflexivity.
    + reflexivity.
    + apply length_app.
  - rewrite Hspec, Hall. reflexivity.
Qed.

Lemma path_parameters_concatenate_witness :
  get_path_parameters shared_parameters_doc "/pets/{petId}" (Some "GET")
  = Ok (Yaml (VArr [petId_parameter; limit_parameter])).
Proof.
  destruct (proj1 (path_parameters_concatenate
                     shared_parameters_doc "/pets/{petId}" (Some "GET") _
                     eq_refl eq_refl eq_refl eq_refl))
    as [parameters [Hresult [Hlist _]]].
  - simpl. discriminate.
  - rewrite Hresult, Hlist. reflexivity.
Defined.

(** C5 fails on the code: shared parameters written as a mapping are
    neither a list nor absent; spreading them throws, so the tool answers
    with neither the parameters nor a sentence. *)
Lemma mapping_of_parameters_is_not_spread :
  truthy (path_level mapping_parameters_doc "/pets") = true /\
  get_path_parameters mapping_parameters_doc "/pets" None = Throw TypeError.
Proof. split; reflexivity. Qed.

Lemma falsy_sequence_or_absent (v : value) :
  truthy v = false -> sequence_or_absent v = true.
Proof.
  destruct v; simpl; intro H; try discriminate H; try reflexivity;
    rewrite H; reflexivity.
Qed.

(** C10, as the code has it: when the path is there, the method argument
    names nothing truthy on the Path Item and the shared [parameters]
    field is a list or absent, [get-path-parameters] does not report the
    method as not found.  It answers with the shared parameters alone, or,
    when there are none, with the sentence "No parameters found for", in
    which a non-empty method argument appears upper-cased before the
    path. *)
Theorem unresolved_method_keeps_shared_parameters :
  forall doc path method paths pathItem operation,
    get doc "paths" = Ok paths ->
    get_opt paths path = Ok pathItem ->
    truthy pathItem = true ->
    get pathItem (toLowerCase method) = Ok operation ->
    truthy operation = false ->
    sequence_or_absent (field pathItem "parameters") = true ->
    let shared := sequence (field pathItem "parameters") in
    (shared <> [] ->
     get_path_parameters doc path (Some method) = Ok (Yaml (VArr shared)))
    /\
    (shared = [] ->
     get_path_parameters doc path (Some method)
     = Ok (Text (no_parameters (Some method) path)))
    /\
    get_path_parameters doc path (Some method)
    <> Ok (Text (method_not_found method path))
    /\
    (method <> EmptyString ->
     no_parameters (Some method) path
     = "No parameters found for " ++ toUpperCase method ++ " " ++ path).
Proof.
  intros doc path method paths pathItem operation
         Hpaths Hitem Hpresent Hop Hfalsy Hshared shared.
  rewrite get_opt_field in Hitem. injection Hitem as Hitem.
  assert (Hpl : path_level doc path = field pathItem "parameters").
  { unfold path_level. rewrite (get_field _ _ _ Hpaths), Hitem.
    reflexivity. }
  assert (Hml : truthy (method_level doc path (Some method)) = false).
  { unfold method_level. destruct (given (Some method)); [ | reflexivity ].
    rewrite (get_field _ _ _ Hpaths), Hitem. simpl text_of.
    rewrite (get_field _ _ _ Hop). apply falsy_field. exact Hfalsy. }
  pose proof (get_path_parameters_spec doc path (Some method) paths Hpaths)
    as Hspec.
  rewrite Hpl in Hspec.
  specialize (Hspec Hshared (falsy_sequence_or_absent _ Hml)).
  simpl in Hspec. rewrite (falsy_sequence _ Hml), app_nil_r in Hspec.
  rewrite Hitem, Hpresent in Hspec. fold shared in Hspec.
  assert (Hno : (List.length shared =? 0)%nat = true ->
                get_path_parameters doc path (Some method)
                = Ok (Text (no_parameters (Some method) path))).
  { intro Hlen. rewrite Hspec, Hlen. reflexivity. }
  split; [ | split; [ | split ] ].
  - intro Hsome. rewrite Hspec.
    destruct (List.length shared =? 0)%nat eqn:Hlen; [ | reflexivity ].
    apply length_zero in Hlen. contradiction.
  - intro Hnone. apply Hno. apply length_zero. exact Hnone.
  - rewrite Hspec.
    destruct (List.length shared =? 0)%nat; [ | discriminate ].
    unfold no_parameters, method_not_found. simpl. discriminate.
  - intro Hname. unfold no_parameters.
    rewrite (given_Some _ Hname). rewrite append_assoc. reflexivity.
Qed.

Lemma unresolved_method_witness :
  get_path_parameters shared_parameters_doc "/pets/{petId}" (Some "patch")
  = Ok (Yaml (VArr [petId_parameter])).
Proof.
  refine (proj1 (unresolved_method_keeps_shared_parameters
                   shared_parameters_doc "/pets/{petId}" "patch" _ _ _
                   eq_refl eq_refl eq_refl eq_refl eq_refl eq_refl) _).
  simpl. discriminate.
Defined.

(** C10 fails on the code: with the shared parameters written as a
    mapping and a method the Path Item does not have, the tool throws
    before it looks at the method; it answers with neither the shared
    parameters nor the sentence. *)
Lemma unresolved_method_on_mapping_throws :
  field (field (field mapping_parameters_doc "paths") "/pets") "patch"
  = VUndefined /\
  get_path_parameters mapping_parameters_doc "/pets" (Some "patch")
  = Throw TypeError.
Proof. split; reflexivity. Qed.

(** ** Loops *)

Section Loops.

Context {A S : Type}.
Variable R : S -> S -> Prop.
Variable body : S -> A -> result S.
Hypothesis R_refl : forall s, R s s.
Hypothesis R_trans : forall s1 s2 s3, R s1 s2 -> R s2 s3 -> R s1 s3.
Hypothesis step : forall s x s1, body s x = Ok s1 -> R s s1.

(** A loop whose every iteration moves the state along a preorder moves
    it along that preorder as a whole. *)
Lemma foldM_preorder :
  forall xs s s', foldM body xs s = Ok s' -> R s s'.
Proof.
  induction xs as [ | x xs IH ]; simpl; intros s s' H.
  - injection H as <-. apply R_refl.
  - apply bind_Ok in H. destruct H as [s1 [H1 H2]].
    apply R_trans with s1; [ apply (step _ _ _ H1) | apply IH; exact H2 ].
Qed.

(** Every element of the list gets its iteration. *)
Lemma foldM_visit :
  forall xs s s' x,
    foldM body xs s = Ok s' -> In x xs ->
    exists s0 s1, R s s0 /\ body s0 x = Ok s1 /\ R s1 s'.
Proof.
  induction xs as [ | y xs IH ]; simpl; intros s s' x H Hin.
  - contradiction.
  - apply bind_Ok in H. destruct H as [s1 [H1 H2]].
    destruct Hin as [-> | Hin].
    + exists s, s1. split; [ apply R_refl | split; [ exact H1 | ] ].
      apply (foldM_preorder _ _ _ H2).
    + destruct (IH _ _ _ H2 Hin) as [s0 [s2 [Ha [Hb Hc]]]].
      exists s0, s2. split; [ | split; assumption ].
      apply R_trans with s1; [ apply (step _ _ _ H1) | exact Ha ].
Qed.

End Loops.

(** ** Search results *)

Lemma extends_refl (r : results) : extends r r.
Proof. split; [ reflexivity | auto ]. Qed.

Lemma extends_trans (r1 r2 r3 : results) :
  extends r1 r2 -> extends r2 r3 -> extends r1 r3.
Proof.
  intros [K1 F1] [K2 F2]. split.
  - rewrite K2. exact K1.
  - intros k x H. apply F2, F1, H.
Qed.

Lemma keys_push (key item : string) (r : results) :
  map fst (push key item r) = map fst r.
Proof.
  induction r as [ | [k xs] r IH ]; simpl.
  - reflexivity.
  - destruct (k =? key); simpl; [ reflexivity | rewrite IH; reflexivity ].
Qed.

Lemma push_keeps (key item : string) (r : results) :
  forall k x, In x (found k r) -> In x (found k (push key item r)).
Proof.
  unfold found.
  induction r as [ | [k0 xs] r IH ]; simpl; intros k x H.
  - exact H.
  - destruct (k0 =? key) eqn:Hkey; simpl.
    + destruct (k0 =? k); simpl in *.
      * apply in_or_app. left. exact H.
      * exact H.
    + destruct (k0 =? k); simpl in *.
      * exact H.
      * apply IH. exact H.
Qed.

Lemma push_extends (key item : string) (r : results) :
  extends r (push key item r).
Proof. split; [ apply keys_push | apply push_keeps ]. Qed.

Lemma push_records (key item : string) (r : results) :
  In key (map fst r) -> In item (found key (push key item r)).
Proof.
  unfold found.
  induction r as [ | [k0 xs] r IH ]; simpl; intro H.
  - contradiction.
  - destruct (String.eqb_spec k0 key) as [E | N]; simpl.
    + rewrite E, String.eqb_refl. simpl.
      apply in_or_app. right. left. reflexivity.
    + destruct (String.eqb_spec k0 key) as [E | _]; [ contradiction | ].
      simpl. apply IH. destruct H as [H | H]; [ contradiction | exact H ].
Qed.

Section SearchFacts.

Variable searchRegex : string -> bool.

Lemma scan_parameters_extends (path method : string) (operation : value) :
  forall r r',
    scan_parameters searchRegex path method operation r = Ok r' ->
    extends r r'.
Proof.
  unfold scan_parameters. intros r r' H.
  apply bind_Ok in H. destruct H as [declared [_ H]].
  apply bind_Ok in H. destruct H as [params [_ H]].
  revert H. apply foldM_preorder.
  - apply extends_refl.
  - apply extends_trans.
  - clear. intros s param s1 H.
    apply bind_Ok in H. destruct H as [name [_ H]].
    destruct (test searchRegex (name ||| VStr EmptyString)).
    + injection H as <-. apply push_extends.
    + apply bind_Ok in H. destruct H as [description [_ H]].
      destruct (test searchRegex (description ||| VStr EmptyString));
        injection H as <-; [ apply push_extends | apply extends_refl ].
Qed.

Lemma scan_paths_extends (doc : value) :
  forall r r', scan_paths searchRegex doc r = Ok r' -> extends r r'.
Proof.
  unfold scan_paths. intros r r' H.
  apply bind_Ok in H. destruct H as [paths [_ H]].
  apply bind_Ok in H. destruct H as [keys [_ H]].
  revert H. apply foldM_preorder.
  - apply extends_refl.
  - apply extends_trans.
  - clear. intros s path s1 H.
    apply bind_Ok in H. destruct H as [pathItem [_ H]].
    apply extends_trans
      with (if searchRegex path then push "paths" path s else s).
    { destruct (searchRegex path);
        [ apply push_extends | apply extends_refl ]. }
    revert H. apply foldM_preorder.
    + apply extends_refl.
    + apply extends_trans.
    + clear. intros s method s1 H.
      apply bind_Ok in H. destruct H as [operation [_ H]].
      destruct (negb (truthy operation)).
      * injection H as <-. apply extends_refl.
      * apply bind_Ok in H. destruct H as [hit [_ H]].
        apply scan_parameters_extends in H.
        eapply extends_trans; [ | exact H ].
        destruct hit; [ apply push_extends | apply extends_refl ].
Qed.

Lemma scan_members_step (type : string) :
  forall r (member : string * value) r1,
    (let '(name, component) := member in
     if searchRegex name
     then Ok (push "components" (type ++ "." ++ name) r)
     else
       description <- get component "description" ;;
       if test searchRegex (description ||| VStr EmptyString)
       then Ok (push "components" (type ++ "." ++ name) r)
       else Ok r) = Ok r1 ->
    extends r r1.
Proof.
  intros r [name component] r1 H.
  destruct (searchRegex name).
  - injection H as <-. apply push_extends.
  - apply bind_Ok in H. destruct H as [description [_ H]].
    destruct (test searchRegex (description ||| VStr EmptyString));
      injection H as <-; [ apply push_extends | apply extends_refl ].
Qed.

Lemma scan_components_step :
  forall r (entry : string * value) r1,
    (let '(type, typeObj) := entry in
     if negb (truthy typeObj) || negb (typeof_object typeObj)
     then Ok r
     else
       members <- Object_entries typeObj ;;
       foldM (fun r '(name, component) =>
                if searchRegex name
                then Ok (push "components" (type ++ "." ++ name) r)
                else
                  description <- get component "description" ;;
                  if test searchRegex (description ||| VStr EmptyString)
                  then Ok (push "components" (type ++ "." ++ name) r)
                  else Ok r)
             members r) = Ok r1 ->
    extends r r1.
Proof.
  intros s [type typeObj] s1 H.
  destruct (negb (truthy typeObj) || negb (typeof_object typeObj)).
  - injection H as <-. apply extends_refl.
  - apply bind_Ok in H. destruct H as [members [_ H]].
    revert H. apply foldM_preorder.
    + apply extends_refl.
    + apply extends_trans.
    + apply scan_members_step.
Qed.

Lemma scan_components_extends (components : value) :
  forall r r',
    scan_components searchRegex components r = Ok r' -> extends r r'.
Proof.
  unfold scan_components. intros r r' H.
  apply bind_Ok in H. destruct H as [entries [_ H]].
  revert H. apply foldM_preorder.
  - apply extends_refl.
  - apply extends_trans.
  - apply scan_components_step.
Qed.

Lemma scan_security_step :
  forall r (entry : string * value) r1,
    (let '(name, scheme) := entry in
     if searchRegex name
     then Ok (push "securitySchemes" name r)
     else
       description <- get scheme "description" ;;
       if test searchRegex (description ||| VStr EmptyString)
       then Ok (push "securitySchemes" name r)
       else Ok r) = Ok r1 ->
    extends r r1.
Proof.
  intros r [name scheme] r1 H.
  destruct (searchRegex name).
  - injection H as <-. apply push_extends.
  - apply bind_Ok in H. destruct H as [description [_ H]].
    destruct (test searchRegex (description ||| VStr EmptyString));
      injection H as <-; [ apply push_extends | apply extends_refl ].
Qed.

Lemma scan_security_extends (components : value) :
  forall r r',
    scan_security searchRegex components r = Ok r' -> extends r r'.
Proof.
  unfold scan_security. intros r r' H.
  apply bind_Ok in H. destruct H as [declared [_ H]].
  apply bind_Ok in H. destruct H as [entries [_ H]].
  revert H. apply foldM_preorder.
  - apply extends_refl.
  - apply extends_trans.
  - apply scan_security_step.
Qed.

End SearchFacts.

Lemma scan_extends (searchRegex : string -> bool) (doc : value) :
  forall r, scan searchRegex doc = Ok r -> extends empty_results r.
Proof.
  unfold scan. intros r H.
  apply bind_Ok in H. destruct H as [r1 [H1 H]].
  apply bind_Ok in H. destruct H as [declared [_ H]].
  apply bind_Ok in H. destruct H as [r2 [H2 H3]].
  apply scan_paths_extends in H1.
  apply scan_components_extends in H2.
  apply scan_security_extends in H3.
  eauto using extends_trans.
Qed.

Lemma five_categories (r : results) :
  map fst r = map fst empty_results ->
  exists a b c d e,
    r = [("paths", a); ("operations", b); ("components", c);
         ("parameters", d); ("securitySchemes", e)].
Proof.
  destruct r as [ | [k1 a] [ | [k2 b] [ | [k3 c] [ | [k4 d]
                 [ | [k5 e] [ | ] ] ] ] ] ];
    simpl; intro H; try discriminate H.
  injection H as -> -> -> -> ->.
  exists a, b, c, d, e. reflexivity.
Qed.

Lemma clean_up_five (a b c d e : list string) :
  let r := [("paths", a); ("operations", b); ("components", c);
            ("parameters", d); ("securitySchemes", e)] in
  clean_up r = filter nonempty r.
Proof.
  destruct a, b, c, d, e; reflexivity.
Qed.

Lemma clean_up_scanned (r : results) :
  map fst r = map fst empty_results -> clean_up r = filter nonempty r.
Proof.
  intro H. destruct (five_categories r H) as [a [b [c [d [e ->]]]]].
  apply clean_up_five.
Qed.

(** The answer of [search-schema] once the scan has completed. *)
Lemma search_schema_answer :
  forall RegExp doc pattern searchRegex r,
    RegExp pattern = Some searchRegex ->
    scan searchRegex doc = Ok r ->
    map fst r = map fst empty_results /\
    search_schema RegExp doc pattern
    = Ok (match filter nonempty r with
          | [] => Text (no_matches pattern)
          | kept => Yaml (VObj (map render kept))
          end).
Proof.
  intros RegExp doc pattern searchRegex r Hre Hscan.
  destruct (scan_extends _ _ _ Hscan) as [Hkeys _].
  split; [ exact Hkeys | ].
  unfold search_schema. rewrite Hre, Hscan. simpl.
  rewrite (clean_up_scanned _ Hkeys).
  destruct (filter nonempty r); reflexivity.
Qed.

Lemma found_absent (k : string) (r : results) :
  ~ In k (map fst r) -> found k r = [].
Proof.
  unfold found. induction r as [ | [k0 xs] r IH ]; simpl; intro H.
  - reflexivity.
  - destruct (String.eqb_spec k0 k) as [-> | _].
    + exfalso. apply H. left. reflexivity.
    + apply IH. intro Hin. apply H. right. exact Hin.
Qed.

Lemma lookup_absent_category (k : string) (r : results) :
  ~ In k (map fst r) -> lookup k (map render (filter nonempty r)) = None.
Proof.
  induction r as [ | [k0 xs] r IH ]; simpl; intro H.
  - reflexivity.
  - assert (Hrest : ~ In k (map fst r)).
    { intro Hin. apply H. right. exact Hin. }
    destruct (nonempty (k0, xs)); simpl; [ | apply IH; exact Hrest ].
    destruct (String.eqb_spec k0 k) as [-> | _].
    + exfalso. apply H. left. reflexivity.
    + apply IH. exact Hrest.
Qed.

(** A category is listed exactly when it recorded something, and then
    with everything it recorded. *)
Lemma lookup_kept_category (k : string) (r : results) :
  NoDup (map fst r) ->
  lookup k (map render (filter nonempty r))
  = match found k r with
    | [] => None
    | matches => Some (strings matches)
    end.
Proof.
  induction r as [ | [k0 xs] r IH ]; simpl; intro Hnodup.
  - reflexivity.
  - inversion Hnodup as [ | ? ? Hnotin Hrest ]; subst.
    unfold found. simpl.
    destruct (String.eqb_spec k0 k) as [-> | N]; simpl.
    + destruct xs as [ | x xs ]; simpl.
      * apply lookup_absent_category. exact Hnotin.
      * rewrite String.eqb_refl. reflexivity.
    + fold (found k r). rewrite <- (IH Hrest).
      destruct (nonempty (k0, xs)); simpl; [ | reflexivity ].
      destruct (String.eqb_spec k0 k) as [E | _];
        [ contradiction | reflexivity ].
Qed.

(** C6, as the code has it: whenever the scan of the document completes
    (it throws on a value it cannot read, such as a tag that is not a
    list), the categories are the five of the source; when none of them
    recorded a match the answer is the single sentence that quotes the
    pattern; otherwise the answer is a structure in which a category that
    recorded nothing is absent and every other category carries all its
    matches. *)
Theorem search_omits_empty_categories :
  forall RegExp doc pattern searchRegex r,
    RegExp pattern = Some searchRegex ->
    scan searchRegex doc = Ok r ->
    map fst r = ["paths"; "operations"; "components"; "parameters";
                 "securitySchemes"] /\
    ((forall category, found category r = []) ->
     search_schema RegExp doc pattern = Ok (Text (no_matches pattern))) /\
    ((exists category, found category r <> []) ->
     exists listing,
       search_schema RegExp doc pattern = Ok (Yaml (VObj listing)) /\
       forall category,
         (found category r = [] -> lookup category listing = None) /\
         (found category r <> [] ->
          lookup category listing = Some (strings (found category r)))).
Proof.
  intros RegExp doc pattern searchRegex r Hre Hscan.
  destruct (search_schema_answer _ _ _ _ _ Hre Hscan) as [Hkeys Hanswer].
  assert (Hnodup : NoDup (map fst r)).
  { rewrite Hkeys. repeat constructor; simpl; intuition discriminate. }
  split; [ exact Hkeys | split ].
  - intro Hnone. rewrite Hanswer.
    assert (Hfilter : filter nonempty r = []).
    { apply filter_none. intros [k xs] Hin.
      destruct xs as [ | x xs ]; [ reflexivity | exfalso ].
      specialize (Hnone k).
      pose proof (lookup_kept_category k r Hnodup) as Hkept.
      rewrite Hnone in Hkept.
      assert (Hin' : In (render (k, x :: xs))
                        (map render (filter nonempty r))).
      { apply in_map, filter_In. split; [ exact Hin | reflexivity ]. }
      assert (Hk : In k (map fst (map render (filter nonempty r)))).
      { apply (in_map fst) in Hin'. exact Hin'. }
      apply lookup_keys in Hk. contradiction. }
    rewrite Hfilter. reflexivity.
  - intros [category Hsome].
    exists (map render (filter nonempty r)).
    split.
    + rewrite Hanswer.
      destruct (filter nonempty r) as [ | c kept ] eqn:Hfilter;
        [ | reflexivity ].
      exfalso.
      pose proof (lookup_kept_category category r Hnodup) as Hkept.
      rewrite Hfilter in Hkept. simpl in Hkept.
      destruct (found category r); [ contradiction | discriminate Hkept ].
    + intro k. rewrite (lookup_kept_category k r Hnodup).
      split; intro H.
      * rewrite H. reflexivity.
      * destruct (found k r); [ contradiction | reflexivity ].
Qed.

Lemma search_omits_empty_categories_witness :
  search_schema literal_RegExp security_doc "zebra"
  = Ok (Text (no_matches "zebra")).
Proof.
  refine (proj1 (proj2 (search_omits_empty_categories
                          literal_RegExp security_doc "zebra" _ _
                          eq_refl eq_refl)) _).
  intro category. unfold found. simpl.
  repeat match goal with
         | |- context [if ?b then _ else _] => destruct b
         end; reflexivity.
Defined.

(** C6 fails on the code: nothing in this document matches the pattern,
    yet the answer is not the sentence.  The operation writes its tag as a
    string, the scan calls [some] on it and throws. *)
Lemma search_without_match_throws_on_string_tag :
  search_schema literal_RegExp string_tag_doc "zebra" = Throw TypeError /\
  search_schema literal_RegExp string_tag_doc "zebra"
  <> Ok (Text (no_matches "zebra")).
Proof. split; [ reflexivity | discriminate ]. Qed.

(** ** Security schemes in the search *)

Lemma lookup_In (k : string) (v : value) (ps : props) :
  lookup k ps = Some v -> In (k, v) ps.
Proof.
  induction ps as [ | [k' v'] ps IH ]; simpl; intro H.
  - discriminate H.
  - destruct (String.eqb_spec k' k) as [-> | _].
    + injection H as ->. left. reflexivity.
    + right. apply IH. exact H.
Qed.

Section Recording.

Variable searchRegex : string -> bool.
Variable key : string.
Variable label : string -> string.

Lemma record_entry_extends :
  forall r entry r1,
    record_entry searchRegex key label r entry = Ok r1 -> extends r r1.
Proof.
  intros r [name v] r1 H. unfold record_entry in H.
  destruct (searchRegex name).
  - injection H as <-. apply push_extends.
  - apply bind_Ok in H. destruct H as [description [_ H]].
    destruct (test searchRegex (description ||| VStr EmptyString));
      injection H as <-; [ apply push_extends | apply extends_refl ].
Qed.

Lemma matching_entry_recorded :
  forall entries r r' name v,
    foldM (record_entry searchRegex key label) entries r = Ok r' ->
    In key (map fst r) ->
    In (name, v) entries ->
    searchRegex name = true \/
    test searchRegex (field v "description" ||| VStr EmptyString) = true ->
    In (label name) (found key r') /\ extends r r'.
Proof.
  intros entries r r' name v Hloop Hkey Hin Hmatch.
  split; [ | revert Hloop; apply foldM_preorder;
             [ apply extends_refl | apply extends_trans
             | apply record_entry_extends ] ].
  destruct (foldM_visit extends (record_entry searchRegex key label)
              extends_refl extends_trans
              record_entry_extends _ _ _ _ Hloop Hin)
    as [r0 [r1 [[K0 _] [Hstep [_ Hkeep]]]]].
  apply Hkeep.
  assert (Hpushed : r1 = push key (label name) r0).
  { unfold record_entry in Hstep.
    destruct (searchRegex name) eqn:Hname.
    - injection Hstep as <-. reflexivity.
    - apply bind_Ok in Hstep. destruct Hstep as [description [Hd Hstep]].
      rewrite (get_field _ _ _ Hd) in Hmatch.
      destruct Hmatch as [Hm | Hm]; [ discriminate Hm | ].
      rewrite Hm in Hstep. injection Hstep as <-. reflexivity. }
  rewrite Hpushed. apply push_records. rewrite K0. exact Hkey.
Qed.

End Recording.

(** C9, as the code has it: a security scheme stored under
    [components.securitySchemes] whose name or description matches is
    recorded by both scans, so a search whose scan completes lists it under [components] as
    [securitySchemes.<name>] and under [securitySchemes] as [<name>]. *)
Theorem security_scheme_reported_twice :
  forall RegExp doc pattern searchRegex components schemes name scheme r,
    RegExp pattern = Some searchRegex ->
    get doc "components" = Ok components ->
    get components "securitySchemes" = Ok (VObj schemes) ->
    In (name, scheme) schemes ->
    searchRegex name = true \/
    test searchRegex (field scheme "description" ||| VStr EmptyString)
    = true ->
    scan searchRegex doc = Ok r ->
    In ("securitySchemes." ++ name) (found "components" r) /\
    In name (found "securitySchemes" r) /\
    exists listing,
      search_schema RegExp doc pattern = Ok (Yaml (VObj listing)) /\
      In ("components", strings (found "components" r)) listing /\
      In ("securitySchemes", strings (found "securitySchemes" r)) listing.
Proof.
  intros RegExp doc pattern searchRegex components schemes name scheme r
         Hre Hc Hs Hin Hmatch Hscan.
  assert (Hboth : In ("securitySchemes." ++ name) (found "components" r) /\
                  In name (found "securitySchemes" r)).
  { unfold scan in Hscan. rewrite Hc in Hscan.
    apply bind_Ok in Hscan. destruct Hscan as [r1 [H1 Hscan]].
    simpl in Hscan.
    apply bind_Ok in Hscan. destruct Hscan as [r2 [H2 H3]].
    destruct components as [ | | b | n | s | xs | cs ];
      simpl in Hs; try discriminate Hs.
    destruct (lookup "securitySchemes" cs) as [found_schemes | ] eqn:Hl;
      [ | discriminate Hs ].
    injection Hs as ->.
    apply scan_paths_extends in H1. destruct H1 as [K1 _].
    pose proof (scan_security_extends _ _ _ _ H3) as [_ Hkeep3].
    unfold or_else in H2, H3. simpl in H2, H3.
    split.
    - apply Hkeep3.
      unfold scan_components in H2. simpl in H2.
      eapply (foldM_visit extends) in H2;
        [ | apply extends_refl | apply extends_trans
          | apply scan_components_step
          | exact (lookup_In _ _ _ Hl) ].
      destruct H2 as [s0 [s1 [[K0 _] [Hstep [_ Hkeep]]]]].
      apply Hkeep. simpl in Hstep.
      refine (proj1 (matching_entry_recorded searchRegex "components"
                       (fun name => "securitySchemes." ++ name)
                       schemes s0 s1 name scheme Hstep _ Hin Hmatch)).
      rewrite K0, K1. simpl. auto.
    - unfold scan_security in H3. simpl in H3. rewrite Hl in H3.
      simpl in H3.
      apply scan_components_extends in H2. destruct H2 as [K2 _].
      refine (proj1 (matching_entry_recorded searchRegex "securitySchemes"
                       (fun name => name) schemes r2 r name scheme
                       H3 _ Hin Hmatch)).
      rewrite K2, K1. simpl. auto 10. }
  destruct Hboth as [Hcomponents Hsecurity].
  split; [ exact Hcomponents | split; [ exact Hsecurity | ] ].
  destruct (search_schema_answer _ _ _ _ _ Hre Hscan)
    as [Hkeys Hanswer].
  destruct (five_categories r Hkeys) as [a [b [c [d [e ->]]]]].
  unfold found in Hcomponents, Hsecurity. simpl in Hcomponents, Hsecurity.
  rewrite Hanswer. unfold found. simpl.
  destruct c as [ | c0 c ]; [ contradiction | ].
  destruct e as [ | e0 e ]; [ contradiction | ].
  destruct a, b, d; simpl; eexists; (split; [ reflexivity | ]);
    unfold render; simpl; auto 10.
Qed.

Lemma security_scheme_reported_twice_witness :
  exists r,
    scan (fun s => contains "apikey" (toLowerCase s)) security_doc = Ok r /\
    In "securitySchemes.ApiKeyAuth" (found "components" r) /\
    In "ApiKeyAuth" (found "securitySchemes" r).
Proof.
  eexists. split; [ reflexivity | ].
  pose proof (security_scheme_reported_twice
                literal_RegExp security_doc "apikey" _ _ _
                "ApiKeyAuth" _ _ eq_refl eq_refl eq_refl
                (or_introl eq_refl) (or_introl eq_refl) eq_refl) as H.
  split; [ exact (proj1 H) | exact (proj1 (proj2 H)) ].
Defined.

(** C9 fails on the code: the scheme's name matches the pattern, but the
    scan of the paths throws on a tag written as a string before either
    scan reaches the scheme, and the search reports nothing. *)
Lemma matching_scheme_is_lost_when_the_scan_throws :
  contains "apikey" (toLowerCase "ApiKeyAuth") = true /\
  field (field (field string_tag_security_doc "components")
               "securitySchemes") "ApiKeyAuth" <> VUndefined /\
  search_schema literal_RegExp string_tag_security_doc "apikey"
  = Throw TypeError.
Proof. split; [ reflexivity | split; [ discriminate | reflexivity ] ]. Qed.

(** ** Property assignment and enumeration order *)

Lemma lookup_app_fresh (k : string) (v : value) (ps : props) :
  lookup k ps = None -> lookup k (ps ++ [(k, v)])%list = Some v.
Proof.
  induction ps as [ | [k' v'] ps IH ]; simpl; intro H.
  - rewrite String.eqb_refl. reflexivity.
  - destruct (k' =? k); [ discriminate H | apply IH; exact H ].
Qed.

Lemma lookup_app_other (k k' : string) (v : value) (ps : props) :
  k' <> k -> lookup k' (ps ++ [(k, v)])%list = lookup k' ps.
Proof.
  intro N. induction ps as [ | [k0 v0] ps IH ]; simpl.
  - destruct (String.eqb_spec k k') as [E | _];
      [ symmetry in E; contradiction | reflexivity ].
  - destruct (k0 =? k'); [ reflexivity | exact IH ].
Qed.

Lemma lookup_replace_same (k : string) (v : value) (ps : props) :
  lookup k ps <> None -> lookup k (replace k v ps) = Some v.
Proof.
  induction ps as [ | [k' v'] ps IH ]; simpl; intro H.
  - contradiction.
  - destruct (k' =? k) eqn:E; simpl; rewrite E;
      [ reflexivity | apply IH; exact H ].
Qed.

Lemma lookup_replace_other (k k' : string) (v : value) (ps : props) :
  k' <> k -> lookup k' (replace k v ps) = lookup k' ps.
Proof.
  intro N. induction ps as [ | [k0 v0] ps IH ]; simpl.
  - reflexivity.
  - destruct (String.eqb_spec k0 k) as [-> | _]; simpl.
    + destruct (String.eqb_spec k k') as [E | _];
        [ symmetry in E; contradiction | reflexivity ].
    + destruct (k0 =? k'); [ reflexivity | exact IH ].
Qed.

Lemma lookup_insert_index_same (n : N) (k : string) (v : value) (ps : props) :
  lookup k ps = None -> lookup k (insert_index n k v ps) = Some v.
Proof.
  induction ps as [ | [k' v'] ps IH ]; simpl; intro H.
  - rewrite String.eqb_refl. reflexivity.
  - destruct (k' =? k) eqn:E; [ discriminate H | ].
    destruct (array_index k') as [n' | ].
    + destruct (n' <? n)%N; simpl.
      * rewrite E. apply IH. exact H.
      * rewrite String.eqb_refl. reflexivity.
    + simpl. rewrite String.eqb_refl. reflexivity.
Qed.

Lemma lookup_insert_index_other (n : N) (k k' : string) (v : value)
  (ps : props) :
  k' <> k -> lookup k' (insert_index n k v ps) = lookup k' ps.
Proof.
  intro N0.
  assert (E : (k =? k') = false).
  { destruct (String.eqb_spec k k') as [E | _];
      [ symmetry in E; contradiction | reflexivity ]. }
  induction ps as [ | [k0 v0] ps IH ]; simpl.
  - rewrite E. reflexivity.
  - destruct (array_index k0) as [n' | ].
    + destruct (n' <? n)%N; simpl.
      * destruct (k0 =? k'); [ reflexivity | exact IH ].
      * rewrite E. reflexivity.
    + simpl. rewrite E. reflexivity.
Qed.

(** Reading back what was just assigned, and reading any other key. *)
Lemma lookup_obj_set_same (ps : props) (k : string) (v : value) :
  lookup k (obj_set ps k v) = Some v.
Proof.
  unfold obj_set. destruct (lookup k ps) as [old | ] eqn:H.
  - apply lookup_replace_same. rewrite H. discriminate.
  - destruct (array_index k) as [n | ].
    + apply lookup_insert_index_same. exact H.
    + apply lookup_app_fresh. exact H.
Qed.

Lemma lookup_obj_set_other (ps : props) (k k' : string) (v : value) :
  k' <> k -> lookup k' (obj_set ps k v) = lookup k' ps.
Proof.
  intro N. unfold obj_set. destruct (lookup k ps) as [old | ].
  - apply lookup_replace_other. exact N.
  - destruct (array_index k) as [n | ].
    + apply lookup_insert_index_other. exact N.
    + apply lookup_app_other. exact N.
Qed.

(** Assignment adds the key to the object's keys and nothing else. *)
Lemma keys_obj_set (ps : props) (k k' : string) (v : value) :
  In k' (map fst (obj_set ps k v)) <-> k' = k \/ In k' (map fst ps).
Proof.
  rewrite <- !lookup_keys.
  destruct (String.eqb_spec k' k) as [-> | N].
  - rewrite lookup_obj_set_same.
    split; [ intros _; left; reflexivity | intros _; discriminate ].
  - rewrite (lookup_obj_set_other _ _ _ _ N).
    split; [ intro H; right; exact H | ].
    intros [H | H]; [ contradiction | exact H ].
Qed.

Lemma insert_sorted_In (e x : string * value) (l : props) :
  In x (insert_sorted e l) <-> x = e \/ In x l.
Proof.
  induction l as [ | e' l IH ]; simpl.
  - split; [ intros [H | H]; [ left; symmetry; exact H | contradiction ]
           | intros [H | H]; [ left; symmetry; exact H | contradiction ] ].
  - destruct (index_of (fst e') <? index_of (fst e))%N; simpl.
    + rewrite IH. tauto.
    + split; [ intros [H | H]; [ left; symmetry; exact H | right; exact H ]
             | intros [H | H]; [ left; symmetry; exact H | right; exact H ] ].
Qed.




Lemma insert_sorted_indexed (e : string * value) (l : props) :
  indexed_entry e = true ->
  Forall (fun x => indexed_entry x = true) l ->
  Forall (fun x => indexed_entry x = true) (insert_sorted e l).
Proof.
  intros He Hl. apply Forall_forall. intros x Hx.
  apply insert_sorted_In in Hx. destruct Hx as [-> | Hx].
  - exact He.
  - rewrite Forall_forall in Hl. apply Hl. exact Hx.
Qed.

(** On an object whose index keys come first, assigning a fresh index key
    is an insertion among them. *)
Lemma insert_index_among_indices (n : N) (k : string) (v : value)
  (indices names : props) :
  array_index k = Some n ->
  Forall (fun x => indexed_entry x = true) indices ->
  Forall (fun x => named_entry x = true) names ->
  insert_index n k v (indices ++ names)%list
  = (insert_sorted (k, v) indices ++ names)%list.
Proof.
  intros Hk Hi Hn.
  induction Hi as [ | [k' v'] indices Hk' Hi IH ]; simpl.
  - destruct Hn as [ | [k' v'] names Hk' Hn ]; simpl.
    + reflexivity.
    + unfold named_entry, is_index in Hk'. simpl in Hk'.
      destruct (array_index k'); [ discriminate Hk' | reflexivity ].
  - unfold indexed_entry, is_index in Hk'. simpl in Hk'.
    unfold index_of at 1 2. simpl. rewrite Hk.
    destruct (array_index k') as [n' | ]; [ | discriminate Hk' ].
    destruct (n' <? n)%N; [ rewrite IH | ]; reflexivity.
Qed.

Lemma obj_set_fresh (k : string) (v : value) (indices names : props) :
  lookup k (indices ++ names)%list = None ->
  Forall (fun x => indexed_entry x = true) indices ->
  Forall (fun x => named_entry x = true) names ->
  obj_set (indices ++ names)%list k v
  = if is_index k
    then (insert_sorted (k, v) indices ++ names)%list
    else (indices ++ (names ++ [(k, v)]))%list.
Proof.
  intros Hfresh Hi Hn. unfold obj_set, is_index. rewrite Hfresh.
  destruct (array_index k) as [n | ] eqn:Hk.
  - apply insert_index_among_indices; assumption.
  - rewrite app_assoc. reflexivity.
Qed.

Lemma load_mapping_from (entries indices names : props) :
  NoDup (map fst entries) ->
  (forall k, In k (map fst entries) ->
             lookup k (indices ++ names)%list = None) ->
  Forall (fun x => indexed_entry x = true) indices ->
  Forall (fun x => named_entry x = true) names ->
  fold_left (fun o p => obj_set o (fst p) (snd p)) entries
            (indices ++ names)%list
  = (sort_indices (filter indexed_entry entries) indices
     ++ (names ++ filter named_entry entries))%list.
Proof.
  revert indices names.
  induction entries as [ | [k v] entries IH ]; simpl;
    intros indices names Hnodup Hfresh Hi Hn.
  - rewrite app_nil_r. reflexivity.
  - inversion Hnodup as [ | ? ? Hnotin Hrest ]; subst.
    assert (Hset : forall k', In k' (map fst entries) ->
                              lookup k' (obj_set (indices ++ names)%list k v)
                              = None).
    { intros k' Hin. rewrite lookup_obj_set_other.
      - apply Hfresh. right. exact Hin.
      - intros ->. contradiction. }
    rewrite (obj_set_fresh k v indices names
               (Hfresh k (or_introl eq_refl)) Hi Hn) in *.
    change (indexed_entry (k, v)) with (is_index k).
    change (named_entry (k, v)) with (negb (is_index k)).
    destruct (is_index k) eqn:Hk; simpl.
    + apply IH; try assumption.
      apply insert_sorted_indexed; [ exact Hk | exact Hi ].
    + rewrite (IH indices (names ++ [(k, v)])%list); try assumption.
      * rewrite <- app_assoc. reflexivity.
      * apply Forall_app. split; [ exact Hn | ].
        constructor; [ | constructor ].
        unfold named_entry. simpl. rewrite Hk. reflexivity.
Qed.

(** An object filled in document order enumerates its entries in its own
    order: index keys by value, then the other keys as written. *)
Lemma load_mapping_order (entries : props) :
  NoDup (map fst entries) ->
  load_mapping entries = own_property_order entries.
Proof.
  intro Hnodup. unfold load_mapping, own_property_order.
  apply (load_mapping_from entries [] [] Hnodup).
  - intros k _. reflexivity.
  - constructor.
  - constructor.
Qed.

Lemma lookup_load_mapping_from (entries acc : props) (k : string) :
  NoDup (map fst entries) ->
  lookup k (fold_left (fun o p => obj_set o (fst p) (snd p)) entries acc)
  = match lookup k entries with
    | Some v => Some v
    | None => lookup k acc
    end.
Proof.
  revert acc.
  induction entries as [ | [k0 v0] entries IH ]; simpl; intros acc Hnodup.
  - reflexivity.
  - inversion Hnodup as [ | ? ? Hnotin Hrest ]; subst.
    rewrite (IH _ Hrest).
    destruct (String.eqb_spec k0 k) as [-> | N].
    + destruct (lookup k entries) as [v | ] eqn:Hl.
      * exfalso. apply Hnotin. apply lookup_keys. rewrite Hl. discriminate.
      * apply lookup_obj_set_same.
    + destruct (lookup k entries); [ reflexivity | ].
      apply lookup_obj_set_other. intros ->. apply N. reflexivity.
Qed.

(** Loading keeps every entry readable under its key. *)
Lemma lookup_load_mapping (entries : props) (k : string) :
  NoDup (map fst entries) ->
  lookup k (load_mapping entries) = lookup k entries.
Proof.
  intro H. unfold load_mapping. rewrite (lookup_load_mapping_from _ _ _ H).
  destruct (lookup k entries); reflexivity.
Qed.

(** ** Responses *)

(** C4, as the code has it: for a status code that is neither a key of
    the responses nor the name of a member every object inherits,
    [get-response-schema] answers with the [default] response when that
    one is truthy, and otherwise with the sentence that lists the keys of
    the responses, joined by a comma and a space, in the object's own
    order: the integer-like keys by ascending value, then the other keys
    as the document wrote them. *)
Theorem response_fallback_and_available_codes :
  forall doc path method statusCode paths pathItem operation entries,
    get doc "paths" = Ok paths ->
    get_opt paths path = Ok pathItem ->
    truthy pathItem = true ->
    get pathItem (toLowerCase method) = Ok operation ->
    truthy operation = true ->
    NoDup (map fst entries) ->
    get operation "responses" = Ok (VObj (load_mapping entries)) ->
    lookup statusCode entries = None ->
    includes Object_prototype statusCode = false ->
    let fallback := match lookup "default" entries with
                    | Some response => response
                    | None => VUndefined
                    end in
    (truthy fallback = true ->
     get_response_schema doc path method statusCode = Ok (Yaml fallback))
    /\
    (truthy fallback = false ->
     get_response_schema doc path method statusCode
     = Ok (Text (no_response statusCode method path
                   (map fst (own_property_order entries))))).
Proof.
  intros doc path method statusCode paths pathItem operation entries
         Hpaths Hitem Hpresent Hop Htruthy Hnodup Hresponses Habsent
         Hplain fallback.
  assert (Hrun : get_response_schema doc path method statusCode
                 = if negb (truthy fallback)
                   then Ok (Text (no_response statusCode method path
                                    (map fst (own_property_order entries))))
                   else Ok (Yaml fallback)).
  { unfold get_response_schema. navigate Hpaths Hitem Hpresent.
    rewrite Hop. simpl. rewrite Htruthy. simpl.
    rewrite Hresponses. simpl.
    rewrite !(lookup_load_mapping _ _ Hnodup), Habsent. simpl.
    fold fallback.
    destruct (truthy fallback); simpl; [ reflexivity | ].
    unfold Object_keys. simpl.
    rewrite (load_mapping_order _ Hnodup). reflexivity. }
  split; intro H; rewrite Hrun, H; reflexivity.
Qed.

Lemma response_fallback_witness :
  get_response_schema (pet_by_id_doc with_default_responses)
                      "/pets/{petId}" "get" "404"
  = Ok (Yaml unexpected_error).
Proof.
  refine (proj1 (response_fallback_and_available_codes
                   (pet_by_id_doc with_default_responses)
                   "/pets/{petId}" "get" "404" _ _ _
                   with_default_responses
                   eq_refl eq_refl eq_refl eq_refl eq_refl _ eq_refl eq_refl
                   eq_refl)
                eq_refl).
  repeat constructor; simpl; intuition discriminate.
Defined.

(** C4 fails on the code: the document lists [404] before [200], the
    sentence lists [200] before [404]. *)
Lemma available_codes_are_not_in_document_order :
  map fst error_first_responses = ["404"; "200"] /\
  get_response_schema (pet_by_id_doc error_first_responses)
                      "/pets/{petId}" "get" "500"
  = Ok (Text (no_response "500" "get" "/pets/{petId}" ["200"; "404"])) /\
  no_response "500" "get" "/pets/{petId}" ["200"; "404"]
  <> no_response "500" "get" "/pets/{petId}" ["404"; "200"].
Proof.
  split; [ reflexivity | split; [ reflexivity | ] ].
  vm_compute. discriminate.
Qed.







(** ** Endpoint listing *)

Lemma foldM_ext {A S} (body1 body2 : S -> A -> result S) :
  (forall s x, body1 s x = body2 s x) ->
  forall xs s, foldM body1 xs s = foldM body2 xs s.
Proof.
  intros H xs. induction xs as [ | x xs IH ]; simpl; intro s.
  - reflexivity.
  - rewrite H. destruct (body2 s x); simpl; [ apply IH | reflexivity ].
Qed.

Section Assignments.

Context {A : Type}.
Variable f : A -> result value.
Variable g : A -> string.

(** A loop that assigns [f x] under the key [g x] for each [x]. *)
Let assign : props -> A -> result props :=
  fun acc x => v <- f x ;; Ok (obj_set acc (g x) v).

Lemma assign_keys :
  forall xs acc acc',
    foldM assign xs acc = Ok acc' ->
    forall k, In k (map fst acc') <-> In k (map fst acc) \/ In k (map g xs).
Proof.
  induction xs as [ | x xs IH ]; simpl; intros acc acc' H k.
  - injection H as <-. tauto.
  - apply bind_Ok in H. destruct H as [acc1 [H1 H2]].
    unfold assign in H1. apply bind_Ok in H1. destruct H1 as [v [_ H1]].
    injection H1 as <-.
    rewrite (IH _ _ H2), keys_obj_set.
    split; intros [H | H]; auto.
    + destruct H as [-> | H]; auto.
    + destruct H as [<- | H]; auto.
Qed.



Lemma assign_defined :
  forall xs acc acc' x,
    foldM assign xs acc = Ok acc' -> In x xs -> exists v, f x = Ok v.
Proof.
  induction xs as [ | y xs IH ]; simpl; intros acc acc' x H Hin.
  - contradiction.
  - apply bind_Ok in H. destruct H as [acc1 [H1 H2]].
    unfold assign in H1. apply bind_Ok in H1. destruct H1 as [v [Hv _]].
    destruct Hin as [-> | Hin].
    + exists v. exact Hv.
    + apply (IH _ _ _ H2 Hin).
Qed.

End Assignments.


Lemma list_endpoints_loops (doc : value) :
  list_endpoints doc
  = (paths <- get doc "paths" ;;
     entries <- Object_entries (paths ||| VObj []) ;;
     pathMap <- foldM (fun acc e =>
                         v <- summaries (snd e) ;;
                         Ok (obj_set acc (fst e) v))
                      entries [] ;;
     Ok (Yaml (VObj pathMap))).
Proof.
  unfold list_endpoints.
  destruct (get doc "paths") as [paths | e]; cbn [bind]; [ | reflexivity ].
  destruct (Object_entries (paths ||| VObj [])) as [entries | e]; cbn [bind];
    [ | reflexivity ].
  f_equal. apply foldM_ext. intros acc [path pathItem].
  unfold summaries. cbn [fst snd].
  destruct (Object_keys pathItem) as [keys | e]; cbn [bind];
    [ | reflexivity ].
  assert (E : foldM (fun acc method =>
                       operation <- get pathItem method ;;
                       summary <- get operation "summary" ;;
                       Ok (obj_set acc (toUpperCase method)
                                   (summary ||| VStr "No summary")))
                    (method_keys keys) []
              = foldM (fun acc method =>
                         v <- read_summary pathItem method ;;
                         Ok (obj_set acc (toUpperCase method) v))
                      (method_keys keys) []).
  { apply foldM_ext. intros s method. unfold read_summary.
    destruct (get pathItem method) as [operation | e]; simpl;
      [ | reflexivity ].
    destruct (get operation "summary"); reflexivity. }
  unfold method_keys in *. cbv zeta. rewrite E.
  match goal with
  | |- context [bind ?loop _] => destruct loop; reflexivity
  end.
Qed.





(** ** Examples *)

Lemma collect_examples_step (acc acc1 : props) (contentType : string)
  (node : value) :
  (many <- get node "examples" ;;
   if truthy many then Ok (obj_set acc contentType many)
   else
     single <- get node "example" ;;
     if truthy single then
       Ok (obj_set acc contentType
             (VObj [("default", VObj [("value", single)])]))
     else Ok acc) = Ok acc1 ->
  acc1 = match contribution node with
         | Some v => obj_set acc contentType v
         | None => acc
         end.
Proof.
  unfold contribution. intro H.
  apply bind_Ok in H. destruct H as [many [Hmany H]].
  rewrite (get_field _ _ _ Hmany).
  destruct (truthy many).
  - injection H as <-. reflexivity.
  - apply bind_Ok in H. destruct H as [single [Hsingle H]].
    rewrite (get_field _ _ _ Hsingle).
    destruct (truthy single); injection H as <-; reflexivity.
Qed.

Lemma collect_examples_loop (entries : props) :
  forall acc acc',
    foldM (fun examples '(contentType, content) =>
             many <- get content "examples" ;;
             if truthy many then Ok (obj_set examples contentType many)
             else
               single <- get content "example" ;;
               if truthy single then
                 Ok (obj_set examples contentType
                       (VObj [("default", VObj [("value", single)])]))
               else Ok examples)
          entries acc = Ok acc' ->
    NoDup (map fst entries) ->
    (forall k, ~ In k (map fst entries) -> lookup k acc' = lookup k acc) /\
    (forall contentType node,
        In (contentType, node) entries ->
        lookup contentType acc = None ->
        lookup contentType acc' = contribution node).
Proof.
  induction entries as [ | [k0 node0] entries IH ]; simpl;
    intros acc acc' H Hnodup.
  - injection H as <-. split; [ reflexivity | contradiction ].
  - apply bind_Ok in H. destruct H as [acc1 [Hstep Hloop]].
    apply collect_examples_step in Hstep.
    subst acc1.
    inversion Hnodup as [ | k1 l1 Hnotin Hrest ]; subst k1 l1.
    destruct (IH _ _ Hloop Hrest) as [Hother Hnode].
    assert (Hkeep : forall k, k <> k0 ->
              lookup k (match contribution node0 with
                        | Some v => obj_set acc k0 v
                        | None => acc
                        end) = lookup k acc).
    { intros k Hk. destruct (contribution node0); [ | reflexivity ].
      apply lookup_obj_set_other. exact Hk. }
    split.
    + intros k Hk. rewrite Hother.
      * apply Hkeep. intros ->. apply Hk. left. reflexivity.
      * intro Hin. apply Hk. right. exact Hin.
    + intros contentType node [Hhere | Hin] Hfresh.
      * injection Hhere as -> ->. rewrite (Hother _ Hnotin).
        destruct (contribution node);
          [ apply lookup_obj_set_same | exact Hfresh ].
      * apply Hnode; [ exact Hin | ].
        rewrite Hkeep; [ exact Hfresh | ].
        intros ->. apply Hnotin. apply (in_map fst) in Hin. exact Hin.
Qed.

(** ** Reading properties *)

Lemma get_nullish (v : value) (k : string) :
  nullish v = true -> get v k = Throw TypeError.
Proof. destruct v; simpl; intro H; try discriminate H; reflexivity. Qed.

Lemma get_not_nullish (v : value) (k : string) :
  nullish v = false -> get v k = Ok (field v k).
Proof.
  unfold field. destruct v; simpl; intro H; try discriminate H; reflexivity.
Qed.

Lemma truthy_not_nullish (v : value) :
  truthy v = true -> nullish v = false.
Proof. destruct v; simpl; intro H; try discriminate H; reflexivity. Qed.

Lemma Object_entries_not_nullish (v : value) :
  nullish v = false -> Object_entries v = Ok (entries_of v).
Proof.
  unfold entries_of.
  destruct v; simpl; intro H; try discriminate H; reflexivity.
Qed.

Lemma Object_keys_not_nullish (v : value) :
  nullish v = false -> Object_keys v = Ok (names_of v).
Proof.
  intro H. unfold Object_keys, names_of.
  rewrite (Object_entries_not_nullish _ H). reflexivity.
Qed.

Lemma or_else_object_not_nullish (v : value) (ps : props) :
  nullish (v ||| VObj ps) = false.
Proof.
  unfold or_else. destruct (truthy v) eqn:H.
  - apply truthy_not_nullish. exact H.
  - reflexivity.
Qed.

(** ** Examples by media type *)

Lemma collect_examples_returns (entries : props) :
  forall acc,
    (forall contentType node,
        In (contentType, node) entries -> nullish node = false) ->
    exists acc',
      foldM (fun examples '(contentType, content) =>
               many <- get content "examples" ;;
               if truthy many then Ok (obj_set examples contentType many)
               else
                 single <- get content "example" ;;
                 if truthy single then
                   Ok (obj_set examples contentType
                         (VObj [("default", VObj [("value", single)])]))
                 else Ok examples)
            entries acc = Ok acc'.
Proof.
  induction entries as [ | [k0 node0] entries IH ]; simpl; intros acc Hnodes.
  - exists acc. reflexivity.
  - rewrite !(get_not_nullish _ _ (Hnodes k0 node0 (or_introl eq_refl))).
    simpl.
    assert (Hrest : forall contentType node,
               In (contentType, node) entries -> nullish node = false).
    { intros contentType node Hin. apply (Hnodes contentType node).
      right. exact Hin. }
    destruct (truthy (field node0 "examples")); simpl;
      [ apply IH; exact Hrest | ].
    destruct (truthy (field node0 "example")); simpl;
      apply IH; exact Hrest.
Qed.

(** The loop shared by the request and the response branch, on a content
    object none of whose media types maps to [null]. *)
Lemma collect_examples_spec (content : value) :
  truthy content = true ->
  NoDup (names_of content) ->
  (forall contentType node,
      In (contentType, node) (entries_of content) -> nullish node = false) ->
  exists examples,
    collect_examples content = Ok examples /\
    (forall contentType node,
        In (contentType, node) (entries_of content) ->
        lookup contentType examples = contribution node) /\
    (forall contentType,
        In contentType (map fst examples) ->
        In contentType (names_of content)).
Proof.
  intros Htruthy Hnodup Hnodes.
  pose proof (Object_entries_not_nullish _ (truthy_not_nullish _ Htruthy))
    as Hentries.
  destruct (collect_examples_returns (entries_of content) [] Hnodes)
    as [examples Hrun].
  exists examples. split.
  - unfold collect_examples. rewrite Hentries. simpl. exact Hrun.
  - destruct (collect_examples_loop _ _ _ Hrun Hnodup) as [Hother Hnode].
    split.
    + intros contentType node Hin. apply Hnode; [ exact Hin | reflexivity ].
    + intros contentType Hin.
      destruct (in_dec string_dec contentType (names_of content))
        as [Hyes | Hno]; [ exact Hyes | ].
      apply lookup_keys in Hin. rewrite (Hother _ Hno) in Hin.
      contradiction.
Qed.

(** C3, as the code has it.  In request mode [get-examples] goes through
    the media types of [operation.requestBody.content], in response mode
    through those of the chosen response's [content], and answers with
    the object it builds: a media type maps to its node's [examples] when
    that is truthy, otherwise to [{default: {value: example}}] when the
    node's [example] is truthy, and is left out otherwise (an example such
    as [0], [false] or the empty string counts as none); when every media
    type is left out the answer is the sentence "No examples found".  No
    media type maps to [null] here, and none is named [__proto__] (an
    assignment to that key would not add a property).  In component mode
    a truthy [examples] is the answer as it stands, and a component with
    neither a truthy [examples] nor a truthy [example] gets the
    sentence. *)
Theorem examples_by_content_node :
  (forall doc path method paths pathItem operation content,
      path <> EmptyString ->
      method <> EmptyString ->
      get doc "paths" = Ok paths ->
      get_opt paths path = Ok pathItem ->
      get_opt pathItem (toLowerCase method) = Ok operation ->
      truthy operation = true ->
      get_opt (field operation "requestBody") "content" = Ok content ->
      truthy content = true ->
      NoDup (names_of content) ->
      ~ In "__proto__" (names_of content) ->
      (forall contentType node,
          In (contentType, node) (entries_of content) ->
          nullish node = false) ->
      exists examples,
        (forall statusCode componentType componentName,
            get_examples doc Request (Some path) (Some method)
                         statusCode componentType componentName
            = Ok (if (List.length examples =? 0)%nat
                  then Text ("No examples found for " ++ toUpperCase method
                             ++ " " ++ path ++ " request")
                  else Yaml (VObj examples))) /\
        (forall contentType node,
            In (contentType, node) (entries_of content) ->
            lookup contentType examples = contribution node) /\
        (forall contentType,
            In contentType (map fst examples) ->
            In contentType (names_of content)))
  /\
  (forall doc path method statusCode paths pathItem operation responses
          responseObj content,
      path <> EmptyString ->
      method <> EmptyString ->
      get doc "paths" = Ok paths ->
      get_opt paths path = Ok pathItem ->
      get_opt pathItem (toLowerCase method) = Ok operation ->
      truthy operation = true ->
      get operation "responses" = Ok responses ->
      truthy responses = true ->
      select_response responses statusCode = Ok responseObj ->
      truthy responseObj = true ->
      get responseObj "content" = Ok content ->
      truthy content = true ->
      NoDup (names_of content) ->
      ~ In "__proto__" (names_of content) ->
      (forall contentType node,
          In (contentType, node) (entries_of content) ->
          nullish node = false) ->
      exists examples,
        (forall componentType componentName,
            get_examples doc Response (Some path) (Some method)
                         statusCode componentType componentName
            = Ok (if (List.length examples =? 0)%nat
                  then Text ("No examples found for " ++ toUpperCase method
                             ++ " " ++ path ++ " response"
                             ++ (if given statusCode
                                 then " " ++ text_of statusCode
                                 else EmptyString))
                  else Yaml (VObj examples))) /\
        (forall contentType node,
            In (contentType, node) (entries_of content) ->
            lookup contentType examples = contribution node) /\
        (forall contentType,
            In contentType (map fst examples) ->
            In contentType (names_of content)))
  /\
  (forall doc componentType componentName components byType component,
      componentType <> EmptyString ->
      componentName <> EmptyString ->
      get doc "components" = Ok components ->
      get_opt components componentType = Ok byType ->
      get_opt byType componentName = Ok component ->
      truthy component = true ->
      (truthy (field component "examples") = true ->
       get_examples doc Component None None None
                    (Some componentType) (Some componentName)
       = Ok (Yaml (field component "examples"))) /\
      (truthy (field component "examples") = false ->
       truthy (field component "example") = false ->
       get_examples doc Component None None None
                    (Some componentType) (Some componentName)
       = Ok (Text ("No examples found for component " ++ componentType
                   ++ "." ++ componentName)))).
Proof.
  split; [ | split ].
  - intros doc path method paths pathItem operation content
           HP HM Hpaths Hitem Hop Htruthy Hcontent Hc Hnodup Hproto Hnodes.
    destruct (collect_examples_spec content Hc Hnodup Hnodes)
      as [examples [Hrun [Hnode Hkeys]]].
    exists examples. split; [ | split; assumption ].
    intros statusCode componentType componentName.
    unfold get_examples.
    rewrite (given_Some _ HP), (given_Some _ HM). simpl.
    rewrite Hpaths. simpl. rewrite Hitem. simpl. rewrite Hop. simpl.
    rewrite Htruthy. simpl. rewrite (get_truthy _ _ Htruthy). simpl.
    rewrite Hcontent. simpl. rewrite Hc. simpl. rewrite Hrun. simpl.
    destruct (List.length examples =? 0)%nat; reflexivity.
  - intros doc path method statusCode paths pathItem operation responses
           responseObj content
           HP HM Hpaths Hitem Hop Htruthy Hresponses Hr Hselect Ho
           Hcontent Hc Hnodup Hproto Hnodes.
    destruct (collect_examples_spec content Hc Hnodup Hnodes)
      as [examples [Hrun [Hnode Hkeys]]].
    exists examples. split; [ | split; assumption ].
    intros componentType componentName.
    unfold get_examples.
    rewrite (given_Some _ HP), (given_Some _ HM). simpl.
    rewrite Hpaths. simpl. rewrite Hitem. simpl. rewrite Hop. simpl.
    rewrite Htruthy. simpl. rewrite Hresponses. simpl.
    rewrite Hr. simpl. rewrite Hselect. simpl.
    unfold response_examples. rewrite Ho. simpl.
    rewrite Hcontent. simpl. rewrite Hc. simpl. rewrite Hrun. simpl.
    destruct (List.length examples =? 0)%nat; reflexivity.
  - intros doc componentType componentName components byType component
           HT HN Hc Hby Hcomponent Htruthy.
    unfold get_examples.
    rewrite (given_Some _ HT), (given_Some _ HN). simpl.
    rewrite Hc. simpl. rewrite Hby. simpl. rewrite Hcomponent. simpl.
    rewrite Htruthy. simpl. rewrite !(get_truthy _ _ Htruthy). simpl.
    split.
    + intro Hmany. rewrite Hmany. simpl. rewrite Hmany. reflexivity.
    + intros Hmany Hsingle. rewrite Hmany. simpl. rewrite Hsingle.
      reflexivity.
Qed.

Lemma examples_by_content_node_witness :
  exists examples,
    get_examples examples_doc Request (Some "/pets") (Some "post")
                 None None None
    = Ok (if (List.length examples =? 0)%nat
          then Text "No examples found for POST /pets request"
          else Yaml (VObj examples)) /\
    lookup "application/json" examples
    = Some (VObj [("default", VObj [("value", fluffy)])]).
Proof.
  destruct (proj1 examples_by_content_node
              examples_doc "/pets" "post" _ _ _ _
              ltac:(discriminate) ltac:(discriminate)
              eq_refl eq_refl eq_refl eq_refl eq_refl eq_refl)
    as [examples [Hrun [Hnode _]]].
  - repeat constructor; simpl; intuition.
  - intros [H | []]. discriminate H.
  - intros contentType node [H | []]. injection H as _ <-. reflexivity.
  - exists examples. split.
    + exact (Hrun None None None).
    + exact (Hnode "application/json" _ (or_introl eq_refl)).
Defined.

(** C3 fails on the code, twice.  A request body whose single example is
    [0] has an example, and the request branch finds none.  And for one
    and the same example the request branch answers with
    [{default: {value: example}}] under the media type, while the
    component branch answers with [{default: example}]. *)
Lemma single_example_is_not_always_wrapped :
  field (json_example (VNum 0)) "application/json"
  = VObj [("example", VNum 0)] /\
  get_examples zero_example_doc Request (Some "/counters") (Some "put")
               None None None
  = Ok (Text "No examples found for PUT /counters request") /\
  get_examples examples_doc Request (Some "/pets") (Some "post")
               None None None
  = Ok (Yaml (VObj [("application/json",
                     VObj [("default", VObj [("value", fluffy)])])])) /\
  get_examples examples_doc Component None None None
               (Some "schemas") (Some "Pet")
  = Ok (Yaml (VObj [("default", fluffy)])).
Proof. repeat split. Qed.

(** ** Case of the method argument *)

Lemma upper_lower_ascii (c : ascii) :
  upper_ascii (lower_ascii c) = upper_ascii c.
Proof. destruct c as [[] [] [] [] [] [] [] []]; reflexivity. Qed.

Lemma lower_lower_ascii (c : ascii) :
  lower_ascii (lower_ascii c) = lower_ascii c.
Proof. destruct c as [[] [] [] [] [] [] [] []]; reflexivity. Qed.

Lemma toUpperCase_toLowerCase (s : string) :
  toUpperCase (toLowerCase s) = toUpperCase s.
Proof.
  unfold toUpperCase, toLowerCase.
  induction s as [ | c s IH ]; simpl.
  - reflexivity.
  - rewrite upper_lower_ascii, IH. reflexivity.
Qed.

Lemma toLowerCase_idempotent (s : string) :
  toLowerCase (toLowerCase s) = toLowerCase s.
Proof.
  unfold toLowerCase.
  induction s as [ | c s IH ]; simpl.
  - reflexivity.
  - rewrite lower_lower_ascii, IH. reflexivity.
Qed.

Lemma same_case_same_upper (m1 m2 : string) :
  toLowerCase m1 = toLowerCase m2 -> toUpperCase m1 = toUpperCase m2.
Proof.
  intro H.
  rewrite <- (toUpperCase_toLowerCase m1), <- (toUpperCase_toLowerCase m2), H.
  reflexivity.
Qed.

Lemma same_case_same_given (m1 m2 : string) :
  toLowerCase m1 = toLowerCase m2 -> given (Some m1) = given (Some m2).
Proof.
  destruct m1, m2; simpl; intro H; try reflexivity; discriminate H.
Qed.

(** X1: the method argument of [get-path-parameters] is read without
    regard to case: two arguments that differ by case only get the same
    answer, on every document and for every path. *)
Theorem path_parameters_ignore_method_case :
  forall doc path m1 m2,
    toLowerCase m1 = toLowerCase m2 ->
    get_path_parameters doc path (Some m1)
    = get_path_parameters doc path (Some m2).
Proof.
  intros doc path m1 m2 H.
  unfold get_path_parameters, no_parameters. simpl text_of.
  rewrite (same_case_same_given _ _ H), (same_case_same_upper _ _ H), H.
  reflexivity.
Qed.

Lemma path_parameters_ignore_method_case_witness :
  get_path_parameters shared_parameters_doc "/pets/{petId}" (Some "Get")
  = get_path_parameters shared_parameters_doc "/pets/{petId}" (Some "GET").
Proof.
  exact (path_parameters_ignore_method_case
           shared_parameters_doc "/pets/{petId}" "Get" "GET" eq_refl).
Defined.

(** X2: [get-endpoint] reads its method argument without regard to case
    as well, up to the sentence for an unknown method, which quotes the
    argument as it was written: two arguments that differ by case only
    get the same answer, or each gets its own "Method ... not found". *)
Theorem get_endpoint_ignores_method_case :
  forall doc path m1 m2,
    toLowerCase m1 = toLowerCase m2 ->
    get_endpoint doc path m1 = get_endpoint doc path m2
    \/ (get_endpoint doc path m1 = Ok (Text (method_not_found m1 path)) /\
        get_endpoint doc path m2 = Ok (Text (method_not_found m2 path))).
Proof.
  intros doc path m1 m2 H. unfold get_endpoint.
  rewrite (same_case_same_upper _ _ H), H.
  destruct (get doc "paths") as [paths | e]; simpl; [ | left; reflexivity ].
  destruct (get_opt paths path) as [pathItem | e]; simpl;
    [ | left; reflexivity ].
  destruct (negb (truthy pathItem)); [ left; reflexivity | ].
  destruct (get pathItem (toLowerCase m2)) as [operation | e]; simpl;
    [ | left; reflexivity ].
  destruct (negb (truthy operation)).
  - right. split; reflexivity.
  - left. reflexivity.
Qed.

Lemma get_endpoint_ignores_method_case_witness :
  get_endpoint two_paths_doc "/pets" "Get"
  = get_endpoint two_paths_doc "/pets" "GET"
  \/ (get_endpoint two_paths_doc "/pets" "Get"
      = Ok (Text (method_not_found "Get" "/pets")) /\
      get_endpoint two_paths_doc "/pets" "GET"
      = Ok (Text (method_not_found "GET" "/pets"))).
Proof.
  exact (get_endpoint_ignores_method_case
           two_paths_doc "/pets" "Get" "GET" eq_refl).
Defined.

(** X3: an operation is reachable only under a lower-case key.  On a Path
    Item none of whose keys is its own lower-case form (methods written
    [GET], [Post], ...), [get-endpoint], [get-request-body] and
    [get-response-schema] report as not found every method argument
    whose lower-case form is not the name of a member every object
    inherits. *)
Theorem mixed_case_method_keys_are_unreachable :
  forall doc paths path keyed method statusCode,
    get doc "paths" = Ok paths ->
    get_opt paths path = Ok (VObj keyed) ->
    (forall key, In key (map fst keyed) -> toLowerCase key <> key) ->
    includes Object_prototype (toLowerCase method) = false ->
    get_endpoint doc path method
    = Ok (Text (method_not_found method path)) /\
    get_request_body doc path method
    = Ok (Text (method_not_found method path)) /\
    get_response_schema doc path method statusCode
    = Ok (Text (method_not_found method path)).
Proof.
  intros doc paths path keyed method statusCode Hpaths Hitem Hkeys Hplain.
  assert (Hmiss : lookup (toLowerCase method) keyed = None).
  { destruct (lookup (toLowerCase method) keyed) as [v | ] eqn:Hl;
      [ exfalso | reflexivity ].
    apply (Hkeys (toLowerCase method)).
    - apply lookup_keys. rewrite Hl. discriminate.
    - apply toLowerCase_idempotent. }
  unfold get_endpoint, get_request_body, get_response_schema.
  rewrite Hpaths. simpl. rewrite Hitem. simpl. rewrite Hmiss. simpl.
  repeat split.
Qed.

Lemma mixed_case_method_keys_witness :
  get_endpoint upper_case_doc "/pets" "get"
  = Ok (Text (method_not_found "get" "/pets")).
Proof.
  refine (proj1 (mixed_case_method_keys_are_unreachable
                   upper_case_doc _ "/pets" _ "get" "200"
                   eq_refl eq_refl _ eq_refl)).
  intros key [<- | []]. discriminate.
Defined.

(** ** Navigation *)

(** X4: a path that the document does not define, or defines as [null]
    or another falsy value, makes the four path tools answer "Path ... not
    found", whatever the method; a document with no [paths] section at
    all is such a case, for every path.  The path is read plainly: it is
    not the name of a member that the paths object inherits. *)
Theorem unknown_path_is_reported :
  forall doc path method statusCode optionalMethod,
    nullish doc = false ->
    plain_read (field doc "paths") path = true ->
    truthy (field (field doc "paths") path) = false ->
    get_endpoint doc path method = Ok (Text (path_not_found path)) /\
    get_request_body doc path method = Ok (Text (path_not_found path)) /\
    get_response_schema doc path method statusCode
    = Ok (Text (path_not_found path)) /\
    get_path_parameters doc path optionalMethod
    = Ok (Text (path_not_found path)).
Proof.
  intros doc path method statusCode optionalMethod Hdoc Hplain Hmissing.
  unfold get_endpoint, get_request_body, get_response_schema,
    get_path_parameters.
  rewrite (get_not_nullish _ _ Hdoc). simpl.
  rewrite get_opt_field. simpl. rewrite Hmissing. simpl.
  repeat split.
Qed.

Lemma unknown_path_is_reported_witness :
  get_path_parameters components_only_doc "/pets" None
  = Ok (Text (path_not_found "/pets")).
Proof.
  exact (proj2 (proj2 (proj2 (unknown_path_is_reported
                                components_only_doc "/pets" "get" "200" None
                                eq_refl eq_refl eq_refl)))).
Defined.

Lemma get_endpoint_returns (doc : value) (path method : string) :
  nullish doc = false -> exists out, get_endpoint doc path method = Ok out.
Proof.
  intro Hdoc. unfold get_endpoint.
  rewrite (get_not_nullish _ _ Hdoc). simpl.
  rewrite get_opt_field. simpl.
  destruct (truthy (field (field doc "paths") path)) eqn:Hitem; simpl;
    [ | eexists; reflexivity ].
  rewrite (get_truthy _ _ Hitem). simpl.
  destruct (truthy (field (field (field doc "paths") path)
                          (toLowerCase method))) eqn:Hop; simpl;
    [ | eexists; reflexivity ].
  rewrite !(get_truthy _ _ Hop). simpl. eexists. reflexivity.
Qed.

Lemma get_request_body_returns (doc : value) (path method : string) :
  nullish doc = false ->
  exists out, get_request_body doc path method = Ok out.
Proof.
  intro Hdoc. unfold get_request_body.
  rewrite (get_not_nullish _ _ Hdoc). simpl.
  rewrite get_opt_field. simpl.
  destruct (truthy (field (field doc "paths") path)) eqn:Hitem; simpl;
    [ | eexists; reflexivity ].
  rewrite (get_truthy _ _ Hitem). simpl.
  destruct (truthy (field (field (field doc "paths") path)
                          (toLowerCase method))) eqn:Hop; simpl;
    [ | eexists; reflexivity ].
  rewrite (get_truthy _ _ Hop). simpl.
  match goal with
  | |- context [negb (truthy ?body)] => destruct (truthy body)
  end; simpl; eexists; reflexivity.
Qed.

Lemma get_response_schema_returns (doc : value)
  (path method statusCode : string) :
  nullish doc = false ->
  exists out, get_response_schema doc path method statusCode = Ok out.
Proof.
  intro Hdoc. unfold get_response_schema.
  rewrite (get_not_nullish _ _ Hdoc). simpl.
  rewrite get_opt_field. simpl.
  destruct (truthy (field (field doc "paths") path)) eqn:Hitem; simpl;
    [ | eexists; reflexivity ].
  rewrite (get_truthy _ _ Hitem). simpl.
  destruct (truthy (field (field (field doc "paths") path)
                          (toLowerCase method))) eqn:Hop; simpl;
    [ | eexists; reflexivity ].
  rewrite (get_truthy _ _ Hop). simpl.
  set (responses := field _ "responses").
  destruct (truthy responses) eqn:Hr; simpl; [ | eexists; reflexivity ].
  rewrite (get_truthy _ _ Hr). simpl.
  destruct (truthy (field responses statusCode)) eqn:He; simpl.
  - rewrite He. simpl. eexists. reflexivity.
  - rewrite (get_truthy _ _ Hr). simpl.
    destruct (truthy (field responses "default")); simpl;
      [ eexists; reflexivity | ].
    rewrite (Object_keys_not_nullish _ (truthy_not_nullish _ Hr)). simpl.
    eexists. reflexivity.
Qed.

(** X5: [get-endpoint], [get-request-body] and [get-response-schema]
    throw on one input only, the document that loaded as [null] or
    [undefined] (an empty file): on every other document, whatever its
    shape, they answer.  The three arguments are read plainly: the path
    on the paths, the lower-cased method on the Path Item and the status
    code on the responses find an own property or nothing. *)
Theorem operation_tools_throw_only_on_null_document :
  forall doc path method statusCode,
    let pathItem := field (field doc "paths") path in
    let operation := field pathItem (toLowerCase method) in
    plain_read (field doc "paths") path = true ->
    plain_read pathItem (toLowerCase method) = true ->
    plain_read (field operation "responses") statusCode = true ->
    (nullish doc = true <->
     get_endpoint doc path method = Throw TypeError) /\
    (nullish doc = true <->
     get_request_body doc path method = Throw TypeError) /\
    (nullish doc = true <->
     get_response_schema doc path method statusCode = Throw TypeError).
Proof.
  intros doc path method statusCode pathItem operation Hpath Hmethod Hcode.
  destruct (nullish doc) eqn:Hdoc.
  - unfold get_endpoint, get_request_body, get_response_schema.
    rewrite (get_nullish _ _ Hdoc). simpl. repeat split; reflexivity.
  - destruct (get_endpoint_returns doc path method Hdoc) as [o1 H1].
    destruct (get_request_body_returns doc path method Hdoc) as [o2 H2].
    destruct (get_response_schema_returns doc path method statusCode Hdoc)
      as [o3 H3].
    rewrite H1, H2, H3. repeat split; intro H; discriminate H.
Qed.

Lemma operation_tools_throw_only_witness :
  get_response_schema (pet_by_id_doc with_default_responses)
                      "/pets/{petId}" "GET" "500"
  <> Throw TypeError.
Proof.
  intro H.
  apply (proj2 (proj2 (proj2 (operation_tools_throw_only_on_null_document
                                (pet_by_id_doc with_default_responses)
                                "/pets/{petId}" "GET" "500"
                                eq_refl eq_refl eq_refl)))) in H.
  discriminate H.
Defined.

(** What a record answered by [get-endpoint] tells about the lookup. *)
Lemma get_endpoint_record (doc record : value) (path method : string) :
  get_endpoint doc path method = Ok (Yaml record) ->
  exists paths pathItem operation,
    get doc "paths" = Ok paths /\
    get_opt paths path = Ok pathItem /\
    truthy pathItem = true /\
    get pathItem (toLowerCase method) = Ok operation /\
    truthy operation = true /\
    field record "requestBody" = field operation "requestBody" /\
    field record "responses" = field operation "responses" /\
    field record "parameters" = field operation "parameters".
Proof.
  unfold get_endpoint. intro H.
  apply bind_Ok in H. destruct H as [paths [Hpaths H]].
  apply bind_Ok in H. destruct H as [pathItem [Hitem H]].
  destruct (truthy pathItem) eqn:Hpresent; simpl in H; [ | discriminate H ].
  apply bind_Ok in H. destruct H as [operation [Hop H]].
  destruct (truthy operation) eqn:Htruthy; simpl in H; [ | discriminate H ].
  rewrite !(get_truthy _ _ Htruthy) in H. simpl in H.
  injection H as <-.
  exists paths, pathItem, operation. repeat split; assumption.
Qed.

(** X6: [get-request-body] agrees with [get-endpoint].  Whenever
    [get-endpoint] answers with a record, [get-request-body] answers with
    the [requestBody] of that record, or with "No request body defined"
    when the record has none. *)
Theorem request_body_of_endpoint_record :
  forall doc path method record,
    get_endpoint doc path method = Ok (Yaml record) ->
    get_request_body doc path method
    = Ok (if truthy (field record "requestBody")
          then Yaml (field record "requestBody")
          else Text ("No request body defined for " ++ method
                     ++ " " ++ path)).
Proof.
  intros doc path method record H.
  destruct (get_endpoint_record _ _ _ _ H)
    as [paths [pathItem [operation
         [Hpaths [Hitem [Hpresent [Hop [Htruthy [Hbody _]]]]]]]]].
  rewrite Hbody. unfold get_request_body.
  navigate Hpaths Hitem Hpresent. rewrite Hop. simpl.
  rewrite Htruthy. simpl. rewrite (get_truthy _ _ Htruthy). simpl.
  destruct (truthy (field operation "requestBody")); reflexivity.
Qed.

Lemma request_body_of_endpoint_record_witness :
  get_request_body examples_doc "/pets" "POST"
  = Ok (Yaml (VObj [("content", json_example fluffy)])).
Proof.
  exact (request_body_of_endpoint_record examples_doc "/pets" "POST" _
           eq_refl).
Defined.

(** X7: [get-response-schema] agrees with [get-endpoint], and the exact
    status code wins.  Whenever [get-endpoint] answers with a record whose
    [responses] hold a truthy entry for the status code,
    [get-response-schema] answers with that entry, whether or not a
    [default] response is there too. *)
Theorem response_of_endpoint_record :
  forall doc path method statusCode record,
    get_endpoint doc path method = Ok (Yaml record) ->
    truthy (field (field record "responses") statusCode) = true ->
    get_response_schema doc path method statusCode
    = Ok (Yaml (field (field record "responses") statusCode)).
Proof.
  intros doc path method statusCode record H Hexact.
  destruct (get_endpoint_record _ _ _ _ H)
    as [paths [pathItem [operation
         [Hpaths [Hitem [Hpresent [Hop [Htruthy [_ [Hresponses _]]]]]]]]]].
  rewrite Hresponses in *. unfold get_response_schema.
  navigate Hpaths Hitem Hpresent. rewrite Hop. simpl.
  rewrite Htruthy. simpl. rewrite (get_truthy _ _ Htruthy). simpl.
  assert (Hr : truthy (field operation "responses") = true).
  { destruct (truthy (field operation "responses")) eqn:Hr;
      [ reflexivity | ].
    rewrite (falsy_field _ statusCode Hr) in Hexact. discriminate Hexact. }
  rewrite Hr. simpl. rewrite (get_truthy _ _ Hr). simpl.
  rewrite Hexact. simpl. rewrite Hexact. reflexivity.
Qed.

Lemma response_of_endpoint_record_witness :
  get_response_schema (pet_by_id_doc with_default_responses)
                      "/pets/{petId}" "get" "200"
  = Ok (Yaml pet_found).
Proof.
  exact (response_of_endpoint_record
           (pet_by_id_doc with_default_responses)
           "/pets/{petId}" "get" "200" _ eq_refl eq_refl).
Defined.

(** X8: the three tools fail alike.  Whenever [get-endpoint] answers with
    a sentence (unknown path or unknown method), [get-request-body] and
    [get-response-schema] answer with the same sentence. *)
Theorem operation_tools_share_diagnostics :
  forall doc path method statusCode sentence,
    get_endpoint doc path method = Ok (Text sentence) ->
    get_request_body doc path method = Ok (Text sentence) /\
    get_response_schema doc path method statusCode = Ok (Text sentence).
Proof.
  unfold get_endpoint, get_request_body, get_response_schema.
  intros doc path method statusCode sentence H.
  apply bind_Ok in H. destruct H as [paths [Hpaths H]].
  apply bind_Ok in H. destruct H as [pathItem [Hitem H]].
  rewrite Hpaths. simpl. rewrite Hitem. simpl.
  destruct (truthy pathItem) eqn:Hpresent; simpl in *.
  - apply bind_Ok in H. destruct H as [operation [Hop H]].
    rewrite Hop. simpl.
    destruct (truthy operation) eqn:Htruthy; simpl in *.
    + rewrite !(get_truthy _ _ Htruthy) in H. discriminate H.
    + injection H as <-. split; reflexivity.
  - injection H as <-. split; reflexivity.
Qed.

Lemma operation_tools_share_diagnostics_witness :
  get_request_body two_paths_doc "/pets" "patch"
  = Ok (Text (method_not_found "patch" "/pets")).
Proof.
  exact (proj1 (operation_tools_share_diagnostics
                  two_paths_doc "/pets" "patch" "200" _ eq_refl)).
Defined.



(** ** Loops that assign or skip *)

Lemma foldM_pure {A S} (step : S -> A -> S) (xs : list A) (s : S) :
  foldM (fun s x => Ok (step s x)) xs s = Ok (fold_left step xs s).
Proof.
  revert s. induction xs as [ | x xs IH ]; simpl; intro s.
  - reflexivity.
  - apply IH.
Qed.

Section OptionalAssignments.

Context {A : Type}.
Variable h : A -> option value.
Variable g : A -> string.

Let step : props -> A -> props :=
  fun acc x => match h x with
               | Some v => obj_set acc (g x) v
               | None => acc
               end.

Lemma step_other (acc : props) (x : A) (k : string) :
  k <> g x -> lookup k (step acc x) = lookup k acc.
Proof.
  intro N. unfold step. destruct (h x); [ | reflexivity ].
  apply lookup_obj_set_other. exact N.
Qed.

(** With one element per key, each key reads back what its element
    assigned, or nothing when the element was skipped. *)
Lemma optional_assignments :
  forall xs acc,
    NoDup (map g xs) ->
    (forall k, ~ In k (map g xs) ->
               lookup k (fold_left step xs acc) = lookup k acc) /\
    (forall x, In x xs -> lookup (g x) acc = None ->
               lookup (g x) (fold_left step xs acc) = h x).
Proof.
  induction xs as [ | y xs IH ]; simpl; intros acc Hnodup.
  - split; [ reflexivity | contradiction ].
  - inversion Hnodup as [ | ? ? Hnotin Hrest ]; subst.
    destruct (IH (step acc y) Hrest) as [Hother Hhere].
    split.
    + intros k Hk. rewrite Hother.
      * apply step_other. intro E. apply Hk. left. symmetry. exact E.
      * intro Hin. apply Hk. right. exact Hin.
    + intros x [-> | Hin] Hfresh.
      * rewrite (Hother _ Hnotin). unfold step.
        destruct (h x); [ apply lookup_obj_set_same | exact Hfresh ].
      * apply Hhere; [ exact Hin | ].
        rewrite step_other; [ exact Hfresh | ].
        intro E. apply Hnotin. rewrite <- E. apply in_map. exact Hin.
Qed.

End OptionalAssignments.

(** ** Components *)

Lemma list_components_loop (entries : props) (acc : props) :
  foldM (fun listing '(type, items) =>
           if truthy items && typeof_object items then
             names <- Object_keys items ;;
             Ok (obj_set listing type (strings names))
           else Ok listing)
        entries acc
  = Ok (fold_left
          (fun acc category =>
             match (if listable (snd category)
                    then Some (strings (names_of (snd category)))
                    else None) with
             | Some v => obj_set acc (fst category) v
             | None => acc
             end)
          entries acc).
Proof.
  rewrite <- foldM_pure. apply foldM_ext.
  intros listing [type items]. simpl. unfold listable.
  destruct (truthy items) eqn:Ht; simpl; [ | reflexivity ].
  destruct (typeof_object items); [ | reflexivity ].
  rewrite (Object_keys_not_nullish _ (truthy_not_nullish _ Ht)).
  reflexivity.
Qed.

Lemma list_components_run (doc : value) :
  nullish doc = false ->
  list_components doc
  = Ok (Yaml (VObj (fold_left
                      (fun acc category =>
                         match (if listable (snd category)
                                then Some (strings (names_of (snd category)))
                                else None) with
                         | Some v => obj_set acc (fst category) v
                         | None => acc
                         end)
                      (entries_of (field doc "components" ||| VObj []))
                      []))).
Proof.
  intro Hdoc. unfold list_components.
  rewrite (get_not_nullish _ _ Hdoc). simpl.
  rewrite (Object_entries_not_nullish _ (or_else_object_not_nullish _ _)).
  simpl. rewrite list_components_loop. reflexivity.
Qed.



Lemma get_component_spec (doc : value) (type name : string) :
  nullish doc = false ->
  let components := field doc "components" ||| VObj [] in
  let category := field components type in
  let component := field category name in
  get_component doc type name
  = Ok (if truthy category
        then if truthy component then Yaml component
             else Text ("Component '" ++ name ++ "' not found in '" ++ type
                        ++ "'. Available components: "
                        ++ join ", " (names_of category))
        else Text ("Component type '" ++ type
                   ++ "' not found. Available types: "
                   ++ join ", " (names_of components))).
Proof.
  intros Hdoc components category component.
  unfold get_component. rewrite (get_not_nullish _ _ Hdoc). simpl.
  fold components.
  assert (Hc : nullish components = false)
    by apply or_else_object_not_nullish.
  rewrite (get_not_nullish _ _ Hc). simpl. fold category.
  destruct (truthy category) eqn:Hcat; simpl.
  - rewrite (get_truthy _ _ Hcat). simpl. fold component.
    destruct (truthy component); simpl; [ reflexivity | ].
    rewrite (Object_keys_not_nullish _ (truthy_not_nullish _ Hcat)).
    reflexivity.
  - rewrite (Object_keys_not_nullish _ Hc). reflexivity.
Qed.

Lemma lookup_field (ps : props) (k : string) (v : value) :
  lookup k ps = Some v -> field (VObj ps) k = v.
Proof. unfold field. simpl. intro H. rewrite H. reflexivity. Qed.



(** X12: the names [get-component] offers are the names
    [list-components] lists.  For a category of the document that is an
    object, a name that is missing there, or whose value is [null] or
    otherwise falsy, is answered "Component ... not found" followed by
    exactly the member names [list-components] shows for the category;
    a member whose value is [null] is thus offered and not found.  The
    name is read plainly: it is a key of the category, or not the name of
    a member every object inherits; the category is not named
    [__proto__]. *)
Theorem unknown_component_offers_the_listed_names :
  forall doc categories type members name,
    get doc "components" = Ok (VObj categories) ->
    NoDup (map fst categories) ->
    lookup type categories = Some (VObj members) ->
    type <> "__proto__" ->
    plain_read (VObj members) name = true ->
    truthy (field (VObj members) name) = false ->
    get_component doc type name
    = Ok (Text ("Component '" ++ name ++ "' not found in '" ++ type
                ++ "'. Available components: "
                ++ join ", " (map fst members))) /\
    exists listing,
      list_components doc = Ok (Yaml (VObj listing)) /\
      lookup type listing = Some (strings (map fst members)).
Proof.
  intros doc categories type members name Hc Hnodup Htype Hproto Hplain
         Hfalsy.
  assert (Hdoc : nullish doc = false).
  { destruct doc; try reflexivity; discriminate Hc. }
  assert (Hcomponents : field doc "components" ||| VObj []
                        = VObj categories).
  { rewrite (get_field _ _ _ Hc). reflexivity. }
  split.
  - rewrite (get_component_spec _ _ _ Hdoc), Hcomponents.
    rewrite (lookup_field _ _ _ Htype). simpl truthy. cbv iota.
    rewrite Hfalsy. reflexivity.
  - rewrite (list_components_run _ Hdoc), Hcomponents.
    eexists. split; [ reflexivity | ].
    change (entries_of (VObj categories)) with categories.
    apply (proj2 (optional_assignments
                    (fun category =>
                       if listable (snd category)
                       then Some (strings (names_of (snd category)))
                       else None)
                    fst categories [] Hnodup)
                 (type, VObj members)).
    + apply lookup_In. exact Htype.
    + reflexivity.
Qed.

Lemma unknown_component_witness :
  get_component components_only_doc "schemas" "Draft"
  = Ok (Text
      "Component 'Draft' not found in 'schemas'. Available components: Pet, Draft").
Proof.
  refine (proj1 (unknown_component_offers_the_listed_names
                   components_only_doc _ "schemas" _ "Draft"
                   eq_refl _ eq_refl _ eq_refl eq_refl)).
  - repeat constructor; simpl; intuition discriminate.
  - discriminate.
Defined.

(** X13: [get-component] throws on one input only, the document that
    loaded as [null] or [undefined]; on every other document it answers,
    and for a category the document does not have (or has as [null]) the
    answer names the categories that are there.  The two arguments are
    read plainly: the type on the components and the name on the category
    find an own property or nothing. *)
Theorem get_component_throws_only_on_null_document :
  forall doc type name,
    let components := field doc "components" ||| VObj [] in
    plain_read components type = true ->
    plain_read (field components type) name = true ->
    (nullish doc = true <-> get_component doc type name = Throw TypeError)
    /\
    (nullish doc = false ->
     truthy (field (field doc "components" ||| VObj []) type) = false ->
     get_component doc type name
     = Ok (Text ("Component type '" ++ type
                 ++ "' not found. Available types: "
                 ++ join ", "
                      (names_of (field doc "components" ||| VObj []))))).
Proof.
  intros doc type name components Htype Hname. split.
  - destruct (nullish doc) eqn:Hdoc.
    + unfold get_component. rewrite (get_nullish _ _ Hdoc).
      split; reflexivity.
    + rewrite (get_component_spec _ _ _ Hdoc).
      split; intro H; discriminate H.
  - intros Hdoc Hmissing.
    rewrite (get_component_spec _ _ _ Hdoc), Hmissing. reflexivity.
Qed.

Lemma get_component_throws_only_witness :
  get_component components_only_doc "parameters" "limit"
  = Ok (Text
      "Component type 'parameters' not found. Available types: schemas, x-version").
Proof.
  exact (proj2 (get_component_throws_only_on_null_document
                  components_only_doc "parameters" "limit"
                  eq_refl eq_refl)
               eq_refl eq_refl).
Defined.

(** ** Security schemes *)

Lemma scheme_step (summary : props) (name : string) (scheme : value) :
  (type <- get scheme "type" ;;
   description <- get scheme "description" ;;
   oauth2 <-
     (if strict_eq_string type "oauth2" then
        flows <- get scheme "flows" ;;
        names <- Object_keys (flows ||| VObj []) ;;
        Ok [("flows", strings names)]
      else Ok []) ;;
   apiKey <-
     (if strict_eq_string type "apiKey" then
        location <- get scheme "in" ;;
        keyName <- get scheme "name" ;;
        Ok [("in", location); ("name", keyName)]
      else Ok []) ;;
   http <-
     (if strict_eq_string type "http" then
        httpScheme <- get scheme "scheme" ;;
        Ok [("scheme", httpScheme)]
      else Ok []) ;;
   Ok (obj_set summary name
         (VObj (load_mapping
                  ([("type", type); ("description", description)]
                   ++ oauth2 ++ apiKey ++ http)%list))))
  = (v <- (if nullish scheme then Throw TypeError
           else Ok (VObj (scheme_entry scheme))) ;;
     Ok (obj_set summary name v)).
Proof.
  destruct (nullish scheme) eqn:Hs.
  - rewrite (get_nullish _ _ Hs). reflexivity.
  - rewrite !(get_not_nullish _ _ Hs). simpl. unfold scheme_entry.
    destruct (field scheme "type") as [ | | b | n | s | xs | ps ];
      simpl; try reflexivity.
    destruct (String.eqb_spec s "oauth2") as [-> | _].
    + simpl.
      rewrite (Object_keys_not_nullish _ (or_else_object_not_nullish _ _)).
      reflexivity.
    + destruct (String.eqb_spec s "apiKey") as [-> | _];
        [ reflexivity | ].
      destruct (String.eqb_spec s "http") as [-> | _]; reflexivity.
Qed.

Lemma list_security_schemes_loops (doc : value) :
  nullish doc = false ->
  list_security_schemes doc
  = (summary <-
       foldM (fun acc entry =>
                v <- (if nullish (snd entry) then Throw TypeError
                      else Ok (VObj (scheme_entry (snd entry)))) ;;
                Ok (obj_set acc (fst entry) v))
             (entries_of (field (field doc "components") "securitySchemes"
                          ||| VObj []))
             [] ;;
     if (List.length summary =? 0)%nat
     then Ok (Text "No security schemes defined in this API")
     else Ok (Yaml (VObj summary))).
Proof.
  intro Hdoc. unfold list_security_schemes.
  rewrite (get_not_nullish _ _ Hdoc). cbn [bind].
  rewrite get_opt_field. cbn [bind].
  rewrite (Object_entries_not_nullish _ (or_else_object_not_nullish _ _)).
  cbn [bind]. f_equal. apply foldM_ext.
  intros acc [name scheme]. apply scheme_step.
Qed.

Section MoreAssignments.

Context {A : Type}.
Variable f : A -> result value.
Variable g : A -> string.

(** The assigning loop completes when every element computes. *)
Lemma assign_returns :
  forall xs acc,
    (forall x, In x xs -> exists v, f x = Ok v) ->
    exists acc',
      foldM (fun acc x => v <- f x ;; Ok (obj_set acc (g x) v)) xs acc
      = Ok acc'.
Proof.
  induction xs as [ | x xs IH ]; simpl; intros acc Hall.
  - eexists. reflexivity.
  - destruct (Hall x (or_introl eq_refl)) as [v Hv]. rewrite Hv. simpl.
    apply IH. intros y Hy. apply Hall. right. exact Hy.
Qed.

(** Whatever is read from the result was there before or was assigned by
    an element. *)
Lemma assign_origin :
  forall xs acc acc' k v,
    foldM (fun acc x => v <- f x ;; Ok (obj_set acc (g x) v)) xs acc
    = Ok acc' ->
    lookup k acc' = Some v ->
    lookup k acc = Some v \/ exists x, In x xs /\ g x = k /\ f x = Ok v.
Proof.
  induction xs as [ | x xs IH ]; simpl; intros acc acc' k v H Hl.
  - injection H as <-. left. exact Hl.
  - apply bind_Ok in H. destruct H as [acc1 [H1 H2]].
    apply bind_Ok in H1. destruct H1 as [w [Hw H1]]. injection H1 as <-.
    destruct (IH _ _ _ _ H2 Hl) as [Hacc | [y [Hy [Hg Hf]]]].
    + destruct (String.eqb_spec k (g x)) as [-> | N].
      * rewrite lookup_obj_set_same in Hacc. injection Hacc as ->.
        right. exists x. split; [ left; reflexivity | split; auto ].
      * rewrite (lookup_obj_set_other _ _ _ _ N) in Hacc. left. exact Hacc.
    + right. exists y. split; [ right; exact Hy | split; assumption ].
Qed.

End MoreAssignments.



(** ** When the endpoint listing completes *)

Lemma Object_keys_Ok (v : value) (keys : list string) :
  Object_keys v = Ok keys -> nullish v = false /\ keys = names_of v.
Proof.
  intro H. destruct (nullish v) eqn:Hv.
  - destruct v; try discriminate Hv; discriminate H.
  - rewrite (Object_keys_not_nullish _ Hv) in H. injection H as <-.
    split; reflexivity.
Qed.

Lemma get_Ok_not_nullish (v x : value) (k : string) :
  get v k = Ok x -> nullish v = false.
Proof. destruct v; simpl; intro H; try reflexivity; discriminate H. Qed.

Lemma read_summary_returns (pathItem : value) (key : string) :
  (exists v, read_summary pathItem key = Ok v)
  <-> nullish pathItem = false /\ nullish (field pathItem key) = false.
Proof.
  unfold read_summary. split.
  - intros [v H].
    apply bind_Ok in H. destruct H as [operation [Hop H]].
    apply bind_Ok in H. destruct H as [summary [Hs _]].
    rewrite (get_field _ _ _ Hop).
    split; [ apply (get_Ok_not_nullish _ _ _ Hop)
           | apply (get_Ok_not_nullish _ _ _ Hs) ].
  - intros [Hitem Hop].
    rewrite (get_not_nullish _ _ Hitem). simpl.
    rewrite (get_not_nullish _ _ Hop). simpl.
    eexists. reflexivity.
Qed.

Lemma summaries_returns (pathItem : value) :
  (exists v, summaries pathItem = Ok v)
  <-> nullish pathItem = false /\
      forall key, In key (method_keys (names_of pathItem)) ->
                  nullish (field pathItem key) = false.
Proof.
  unfold summaries. split.
  - intros [v H].
    apply bind_Ok in H. destruct H as [keys [Hkeys H]].
    apply bind_Ok in H. destruct H as [byMethod [Hloop _]].
    apply Object_keys_Ok in Hkeys. destruct Hkeys as [Hitem ->].
    split; [ exact Hitem | ].
    intros key Hkey.
    apply (read_summary_returns pathItem key).
    apply (assign_defined (read_summary pathItem) toUpperCase
             _ _ _ key Hloop Hkey).
  - intros [Hitem Hall].
    rewrite (Object_keys_not_nullish _ Hitem). simpl.
    destruct (assign_returns (read_summary pathItem) toUpperCase
                (method_keys (names_of pathItem)) []) as [byMethod Hloop].
    { intros key Hkey. apply read_summary_returns.
      split; [ exact Hitem | apply Hall; exact Hkey ]. }
    rewrite Hloop. simpl. eexists. reflexivity.
Qed.

(** X15: [list-endpoints] completes exactly on the documents that are not
    [null] and in which no Path Item is [null] and no method key (a key
    that is an HTTP method name in any case) holds [null]; keys that are
    not method names may hold anything. *)
Theorem list_endpoints_returns_iff :
  forall doc,
    (exists out, list_endpoints doc = Ok out)
    <->
    nullish doc = false /\
    forall path pathItem,
      In (path, pathItem) (entries_of (field doc "paths" ||| VObj [])) ->
      nullish pathItem = false /\
      forall key, In key (method_keys (names_of pathItem)) ->
                  nullish (field pathItem key) = false.
Proof.
  intro doc. rewrite list_endpoints_loops. split.
  - intros [out H].
    apply bind_Ok in H. destruct H as [paths [Hpaths H]].
    apply bind_Ok in H. destruct H as [entries [Hentries H]].
    apply bind_Ok in H. destruct H as [pathMap [Hloop _]].
    split; [ apply (get_Ok_not_nullish _ _ _ Hpaths) | ].
    rewrite (get_field _ _ _ Hpaths).
    rewrite (Object_entries_not_nullish _ (or_else_object_not_nullish _ _))
      in Hentries.
    injection Hentries as <-.
    intros path pathItem Hin.
    apply summaries_returns.
    apply (assign_defined (fun e => summaries (snd e)) fst
             _ _ _ (path, pathItem) Hloop Hin).
  - intros [Hdoc Hall].
    rewrite (get_not_nullish _ _ Hdoc). simpl.
    rewrite (Object_entries_not_nullish _ (or_else_object_not_nullish _ _)).
    simpl.
    destruct (assign_returns (fun e => summaries (snd e)) fst
                (entries_of (field doc "paths" ||| VObj [])) [])
      as [pathMap Hloop].
    { intros [path pathItem] Hin. apply summaries_returns.
      apply (Hall path pathItem Hin). }
    rewrite Hloop. simpl. eexists. reflexivity.
Qed.

Lemma includes_In (xs : list string) (s : string) :
  includes xs s = true <-> In s xs.
Proof.
  unfold includes. rewrite existsb_exists. split.
  - intros [x [Hin Heq]]. apply String.eqb_eq in Heq. subst. exact Hin.
  - intro H. exists s. split; [ exact H | apply String.eqb_refl ].
Qed.

(** X16: [list-endpoints] shows HTTP methods only.  Every key of every
    entry of its mapping is one of the seven method names in upper case;
    a Path Item key such as [parameters], [summary] or [servers] is never
    listed as a method. *)
Theorem list_endpoints_lists_methods_only :
  forall doc pathMap path byMethod M,
    list_endpoints doc = Ok (Yaml (VObj pathMap)) ->
    lookup path pathMap = Some (VObj byMethod) ->
    In M (map fst byMethod) ->
    In M ["GET"; "POST"; "PUT"; "DELETE"; "PATCH"; "OPTIONS"; "HEAD"].
Proof.
  intros doc pathMap path byMethod M Hrun Hlook HM.
  rewrite list_endpoints_loops in Hrun.
  apply bind_Ok in Hrun. destruct Hrun as [paths [_ Hrun]].
  apply bind_Ok in Hrun. destruct Hrun as [entries [_ Hrun]].
  apply bind_Ok in Hrun. destruct Hrun as [pm [Hloop Hrun]].
  injection Hrun as <-.
  destruct (assign_origin (fun e => summaries (snd e)) fst
              _ _ _ _ _ Hloop Hlook) as [Hempty | [e [_ [_ He]]]];
    [ discriminate Hempty | ].
  unfold summaries in He.
  apply bind_Ok in He. destruct He as [keys [_ He]].
  apply bind_Ok in He. destruct He as [inner [Hinner He]].
  injection He as <-.
  apply (assign_keys (read_summary (snd e)) toUpperCase _ _ _ Hinner) in HM.
  destruct HM as [[] | HM].
  apply in_map_iff in HM. destruct HM as [key [<- Hkey]].
  unfold method_keys in Hkey. apply filter_In in Hkey.
  destruct Hkey as [_ Hmethod]. apply includes_In in Hmethod.
  rewrite <- toUpperCase_toLowerCase.
  change ["GET"; "POST"; "PUT"; "DELETE"; "PATCH"; "OPTIONS"; "HEAD"]
    with (map toUpperCase HTTP_METHODS).
  apply in_map. exact Hmethod.
Qed.

Lemma list_endpoints_lists_methods_only_witness :
  In "DELETE" ["GET"; "POST"; "PUT"; "DELETE"; "PATCH"; "OPTIONS"; "HEAD"].
Proof.
  exact (list_endpoints_lists_methods_only
           two_paths_doc two_paths_listing "/pets/{petId}"
           [("DELETE", VStr "Delete a pet")] "DELETE"
           eq_refl eq_refl (or_introl eq_refl)).
Defined.

(** ** What the search records *)

Lemma found_push_other (k key item : string) (r : results) :
  k <> key -> found k (push key item r) = found k r.
Proof.
  intro N. unfold found.
  induction r as [ | [k0 xs] r IH ]; simpl.
  - reflexivity.
  - destruct (String.eqb_spec k0 key) as [-> | _]; simpl.
    + destruct (String.eqb_spec key k) as [E | _];
        [ symmetry in E; contradiction | reflexivity ].
    + destruct (k0 =? k); [ reflexivity | exact IH ].
Qed.

Lemma found_push_same (key item : string) (r : results) :
  In key (map fst r) ->
  found key (push key item r) = (found key r ++ [item])%list.
Proof.
  unfold found.
  induction r as [ | [k0 xs] r IH ]; simpl; intro H.
  - contradiction.
  - destruct (String.eqb_spec k0 key) as [-> | N]; simpl.
    + rewrite String.eqb_refl. reflexivity.
    + destruct (String.eqb_spec k0 key) as [E | _]; [ contradiction | ].
      apply IH. destruct H as [H | H]; [ contradiction | exact H ].
Qed.

Lemma keeps_refl (k : string) (r : results) : keeps k r r.
Proof. split; reflexivity. Qed.

Lemma keeps_trans (k : string) (r1 r2 r3 : results) :
  keeps k r1 r2 -> keeps k r2 r3 -> keeps k r1 r3.
Proof.
  intros [K1 F1] [K2 F2]. split; [ rewrite K2 | rewrite F2 ]; assumption.
Qed.

Lemma push_keeps_other (k key item : string) (r : results) :
  k <> key -> keeps k r (push key item r).
Proof.
  intro N. split; [ apply keys_push | apply found_push_other; exact N ].
Qed.

Lemma flat_map_filter {A B} (p : A -> bool) (f : A -> B) (xs : list A) :
  flat_map (fun x => if p x then [f x] else []) xs = map f (filter p xs).
Proof.
  induction xs as [ | x xs IH ]; simpl.
  - reflexivity.
  - destruct (p x); simpl; rewrite IH; reflexivity.
Qed.

Section Appending.

Context {A : Type}.
Variable body : results -> A -> result results.
Variable key : string.
Variable contrib : A -> list string.
Hypothesis step :
  forall r x r1,
    body r x = Ok r1 -> In key (map fst r) ->
    map fst r1 = map fst r /\
    found key r1 = (found key r ++ contrib x)%list.

(** A loop whose every iteration appends its own matches to a category
    leaves the matches of all its elements there, in their order. *)
Lemma foldM_appends :
  forall xs r r',
    foldM body xs r = Ok r' -> In key (map fst r) ->
    map fst r' = map fst r /\
    found key r' = (found key r ++ flat_map contrib xs)%list.
Proof.
  induction xs as [ | x xs IH ]; simpl; intros r r' H Hkey.
  - injection H as <-. rewrite app_nil_r. split; reflexivity.
  - apply bind_Ok in H. destruct H as [r1 [H1 H2]].
    destruct (step _ _ _ H1 Hkey) as [K1 F1].
    destruct (IH _ _ H2) as [K2 F2].
    { rewrite K1. exact Hkey. }
    split; [ rewrite K2; exact K1 | ].
    rewrite F2, F1, app_assoc. reflexivity.
Qed.

End Appending.

Section SearchRecords.

Variable searchRegex : string -> bool.

Lemma record_entry_appends (key : string) (label : string -> string) :
  forall r entry r1,
    record_entry searchRegex key label r entry = Ok r1 ->
    In key (map fst r) ->
    map fst r1 = map fst r /\
    found key r1
    = (found key r
       ++ (if entry_matches searchRegex entry then [label (fst entry)]
           else []))%list.
Proof.
  intros r [name v] r1 H Hkey. unfold record_entry in H.
  unfold entry_matches. simpl.
  destruct (searchRegex name); simpl.
  - injection H as <-.
    split; [ apply keys_push | apply found_push_same; exact Hkey ].
  - apply bind_Ok in H. destruct H as [description [Hd H]].
    rewrite (get_field _ _ _ Hd).
    destruct (test searchRegex (description ||| VStr EmptyString));
      injection H as <-.
    + split; [ apply keys_push | apply found_push_same; exact Hkey ].
    + rewrite app_nil_r. split; reflexivity.
Qed.

Lemma record_entry_keeps (key k : string) (label : string -> string) :
  k <> key ->
  forall r entry r1,
    record_entry searchRegex key label r entry = Ok r1 -> keeps k r r1.
Proof.
  intros N r [name v] r1 H. unfold record_entry in H.
  destruct (searchRegex name).
  - injection H as <-. apply push_keeps_other. exact N.
  - apply bind_Ok in H. destruct H as [description [_ H]].
    destruct (test searchRegex (description ||| VStr EmptyString));
      injection H as <-;
      [ apply push_keeps_other; exact N | apply keeps_refl ].
Qed.

Lemma scan_parameters_keeps (k path method : string) (operation : value) :
  k <> "parameters" ->
  forall r r',
    scan_parameters searchRegex path method operation r = Ok r' ->
    keeps k r r'.
Proof.
  intros N r r' H. unfold scan_parameters in H.
  apply bind_Ok in H. destruct H as [declared [_ H]].
  apply bind_Ok in H. destruct H as [params [_ H]].
  revert H. apply foldM_preorder.
  - apply keeps_refl.
  - apply keeps_trans.
  - clear - N. intros s param s1 H.
    apply bind_Ok in H. destruct H as [name [_ H]].
    destruct (test searchRegex (name ||| VStr EmptyString)).
    + injection H as <-. apply push_keeps_other. exact N.
    + apply bind_Ok in H. destruct H as [description [_ H]].
      destruct (test searchRegex (description ||| VStr EmptyString));
        injection H as <-;
        [ apply push_keeps_other; exact N | apply keeps_refl ].
Qed.

Lemma scan_methods_keeps (k path : string) (pathItem : value) :
  k <> "operations" -> k <> "parameters" ->
  forall r r',
    foldM (fun r method =>
             operation <- get pathItem method ;;
             if negb (truthy operation) then Ok r
             else
               hit <- operation_matches searchRegex operation ;;
               let r :=
                 if hit
                 then push "operations"
                        (toUpperCase method ++ " " ++ path) r
                 else r in
               scan_parameters searchRegex path method operation r)
          HTTP_METHODS r = Ok r' ->
    keeps k r r'.
Proof.
  intros No Np. apply foldM_preorder.
  - apply keeps_refl.
  - apply keeps_trans.
  - intros s method s1 H.
    apply bind_Ok in H. destruct H as [operation [_ H]].
    destruct (negb (truthy operation)).
    + injection H as <-. apply keeps_refl.
    + apply bind_Ok in H. destruct H as [hit [_ H]].
      apply (scan_parameters_keeps k _ _ _ Np) in H.
      eapply keeps_trans; [ | exact H ].
      destruct hit; [ apply push_keeps_other; exact No | apply keeps_refl ].
Qed.

Lemma scan_paths_keeps (k : string) (doc : value) :
  k <> "paths" -> k <> "operations" -> k <> "parameters" ->
  forall r r', scan_paths searchRegex doc r = Ok r' -> keeps k r r'.
Proof.
  intros Nh No Np r r' H. unfold scan_paths in H.
  apply bind_Ok in H. destruct H as [paths [_ H]].
  apply bind_Ok in H. destruct H as [keys [_ H]].
  revert H. apply foldM_preorder.
  - apply keeps_refl.
  - apply keeps_trans.
  - intros s path s1 H.
    apply bind_Ok in H. destruct H as [pathItem [_ H]].
    apply (scan_methods_keeps k path pathItem No Np) in H.
    eapply keeps_trans; [ | exact H ].
    destruct (searchRegex path);
      [ apply push_keeps_other; exact Nh | apply keeps_refl ].
Qed.

Lemma scan_paths_appends (doc : value) :
  forall r r',
    scan_paths searchRegex doc r = Ok r' ->
    In "paths" (map fst r) ->
    map fst r' = map fst r /\
    found "paths" r'
    = (found "paths" r
       ++ filter searchRegex (names_of (field doc "paths" ||| VObj [])))%list.
Proof.
  intros r r' H Hkey. unfold scan_paths in H.
  apply bind_Ok in H. destruct H as [paths [Hpaths H]].
  apply bind_Ok in H. destruct H as [keys [Hkeys H]].
  rewrite (get_field _ _ _ Hpaths).
  apply Object_keys_Ok in Hkeys. destruct Hkeys as [_ ->].
  rewrite <- (map_id (filter searchRegex _)).
  rewrite <- (flat_map_filter searchRegex (fun path => path)).
  revert H Hkey. apply foldM_appends.
  clear. intros s path s1 H Hkey.
  apply bind_Ok in H. destruct H as [pathItem [_ H]].
  apply (scan_methods_keeps "paths" path pathItem) in H;
    [ | discriminate | discriminate ].
  destruct H as [K F]. rewrite K, F.
  destruct (searchRegex path).
  - split; [ apply keys_push | apply found_push_same; exact Hkey ].
  - rewrite app_nil_r. split; reflexivity.
Qed.

Lemma scan_components_keeps (k : string) (components : value) :
  k <> "components" ->
  forall r r',
    scan_components searchRegex components r = Ok r' -> keeps k r r'.
Proof.
  intros N r r' H. unfold scan_components in H.
  apply bind_Ok in H. destruct H as [entries [_ H]].
  revert H. apply foldM_preorder.
  - apply keeps_refl.
  - apply keeps_trans.
  - intros s [type typeObj] s1 H.
    destruct (negb (truthy typeObj) || negb (typeof_object typeObj)).
    + injection H as <-. apply keeps_refl.
    + apply bind_Ok in H. destruct H as [members [_ H]].
      revert H.
      apply (foldM_preorder (keeps k)
               (record_entry searchRegex "components"
                  (fun name => type ++ "." ++ name))).
      * apply keeps_refl.
      * apply keeps_trans.
      * apply record_entry_keeps. exact N.
Qed.

Lemma scan_components_appends (components : value) :
  nullish components = false ->
  forall r r',
    scan_components searchRegex components r = Ok r' ->
    In "components" (map fst r) ->
    map fst r' = map fst r /\
    found "components" r'
    = (found "components" r
       ++ flat_map (component_matches searchRegex)
                   (entries_of components))%list.
Proof.
  intros Hc r r' H Hkey. unfold scan_components in H.
  rewrite (Object_entries_not_nullish _ Hc) in H. simpl in H.
  revert H Hkey. apply foldM_appends.
  clear. intros s [type typeObj] s1 H Hkey.
  unfold component_matches, listable. simpl.
  destruct (truthy typeObj) eqn:Ht; simpl in *.
  - destruct (typeof_object typeObj); simpl in *.
    + rewrite (Object_entries_not_nullish _ (truthy_not_nullish _ Ht)) in H.
      simpl in H.
      rewrite <- (flat_map_filter (entry_matches searchRegex)
                    (fun entry => type ++ "." ++ fst entry)).
      revert H Hkey.
      apply (foldM_appends
               (record_entry searchRegex "components"
                  (fun name => type ++ "." ++ name))
               "components"
               (fun entry =>
                  if entry_matches searchRegex entry
                  then [type ++ "." ++ fst entry] else [])).
      apply record_entry_appends.
    + injection H as <-. rewrite app_nil_r. split; reflexivity.
  - injection H as <-. rewrite app_nil_r. split; reflexivity.
Qed.

Lemma scan_security_keeps (k : string) (components : value) :
  k <> "securitySchemes" ->
  forall r r',
    scan_security searchRegex components r = Ok r' -> keeps k r r'.
Proof.
  intros N r r' H. unfold scan_security in H.
  apply bind_Ok in H. destruct H as [declared [_ H]].
  apply bind_Ok in H. destruct H as [entries [_ H]].
  revert H.
  apply (foldM_preorder (keeps k)
           (record_entry searchRegex "securitySchemes" (fun name => name))).
  - apply keeps_refl.
  - apply keeps_trans.
  - apply record_entry_keeps. exact N.
Qed.

Lemma scan_security_appends (components : value) :
  forall r r',
    scan_security searchRegex components r = Ok r' ->
    In "securitySchemes" (map fst r) ->
    map fst r' = map fst r /\
    found "securitySchemes" r'
    = (found "securitySchemes" r
       ++ map fst (filter (entry_matches searchRegex)
                          (entries_of (field components "securitySchemes"
                                       ||| VObj []))))%list.
Proof.
  intros r r' H Hkey. unfold scan_security in H.
  apply bind_Ok in H. destruct H as [declared [Hd H]].
  rewrite (get_field _ _ _ Hd).
  rewrite (Object_entries_not_nullish _ (or_else_object_not_nullish _ _))
    in H.
  simpl in H.
  rewrite <- (flat_map_filter (entry_matches searchRegex) fst).
  revert H Hkey.
  apply (foldM_appends
           (record_entry searchRegex "securitySchemes" (fun name => name))
           "securitySchemes"
           (fun entry =>
              if entry_matches searchRegex entry then [fst entry] else [])).
  apply record_entry_appends.
Qed.

(** What a completed scan holds in three of its categories. *)
Lemma scan_records (doc : value) (r : results) :
  scan searchRegex doc = Ok r ->
  let components := field doc "components" ||| VObj [] in
  found "paths" r
  = filter searchRegex (names_of (field doc "paths" ||| VObj [])) /\
  found "components" r
  = flat_map (component_matches searchRegex) (entries_of components) /\
  found "securitySchemes" r
  = map fst (filter (entry_matches searchRegex)
                    (entries_of (field components "securitySchemes"
                                 ||| VObj []))).
Proof.
  intros H components. unfold scan in H.
  apply bind_Ok in H. destruct H as [r1 [H1 H]].
  apply bind_Ok in H. destruct H as [declared [Hd H]].
  apply bind_Ok in H. destruct H as [r2 [H2 H3]].
  rewrite <- (get_field _ _ _ Hd) in H2, H3. fold components in H2, H3.
  assert (Hc : nullish components = false)
    by apply or_else_object_not_nullish.
  destruct (scan_paths_appends _ _ _ H1) as [K1 F1];
    [ simpl; auto | ].
  destruct (scan_components_appends _ Hc _ _ H2) as [K2 F2];
    [ rewrite K1; simpl; auto | ].
  destruct (scan_security_appends _ _ _ H3) as [K3 F3];
    [ rewrite K2, K1; simpl; auto 10 | ].
  split; [ | split ].
  - rewrite (proj2 (scan_security_keeps "paths" _ ltac:(discriminate)
                      _ _ H3)).
    rewrite (proj2 (scan_components_keeps "paths" _ ltac:(discriminate)
                      _ _ H2)).
    rewrite F1. reflexivity.
  - rewrite (proj2 (scan_security_keeps "components" _ ltac:(discriminate)
                      _ _ H3)).
    rewrite F2.
    rewrite (proj2 (scan_paths_keeps "components" _ ltac:(discriminate)
                      ltac:(discriminate) ltac:(discriminate) _ _ H1)).
    reflexivity.
  - rewrite F3.
    rewrite (proj2 (scan_components_keeps "securitySchemes" _
                      ltac:(discriminate) _ _ H2)).
    rewrite (proj2 (scan_paths_keeps "securitySchemes" _
                      ltac:(discriminate) ltac:(discriminate)
                      ltac:(discriminate) _ _ H1)).
    reflexivity.
Qed.

End SearchRecords.

(** The structure answered by [search-schema], category by category. *)
Lemma search_schema_listing :
  forall RegExp doc pattern searchRegex listing,
    RegExp pattern = Some searchRegex ->
    search_schema RegExp doc pattern = Ok (Yaml (VObj listing)) ->
    exists r,
      scan searchRegex doc = Ok r /\
      forall category,
        lookup category listing
        = match found category r with
          | [] => None
          | matches => Some (strings matches)
          end.
Proof.
  intros RegExp doc pattern searchRegex listing Hre Hrun.
  destruct (scan searchRegex doc) as [r | e] eqn:Hscan.
  - destruct (search_schema_answer _ _ _ _ _ Hre Hscan) as [Hkeys Hanswer].
    rewrite Hanswer in Hrun.
    exists r. split; [ reflexivity | ].
    intro category.
    assert (Hnodup : NoDup (map fst r)).
    { rewrite Hkeys. repeat constructor; simpl; intuition discriminate. }
    rewrite <- (lookup_kept_category category r Hnodup).
    destruct (filter nonempty r); [ discriminate Hrun | ].
    injection Hrun as <-. reflexivity.
  - unfold search_schema in Hrun. rewrite Hre, Hscan in Hrun.
    discriminate Hrun.
Qed.

(** X17: the [paths] category of a search holds exactly the path keys of
    the document that the pattern matches, in the order the document's
    paths enumerate; when none matches the category is absent. *)
Theorem search_paths_category :
  forall RegExp doc pattern searchRegex listing,
    RegExp pattern = Some searchRegex ->
    search_schema RegExp doc pattern = Ok (Yaml (VObj listing)) ->
    lookup "paths" listing
    = match filter searchRegex (names_of (field doc "paths" ||| VObj [])) with
      | [] => None
      | matches => Some (strings matches)
      end.
Proof.
  intros RegExp doc pattern searchRegex listing Hre Hrun.
  destruct (search_schema_listing _ _ _ _ _ Hre Hrun) as [r [Hscan Hlisted]].
  rewrite Hlisted.
  rewrite (proj1 (scan_records _ _ _ Hscan)). reflexivity.
Qed.

Lemma search_paths_category_witness :
  lookup "paths"
         [("paths", strings ["/pets"]);
          ("operations", strings ["GET /pets"]);
          ("components", strings ["schemas.Pet"]);
          ("parameters", strings ["limit (GET /pets)"])]
  = Some (strings ["/pets"]).
Proof.
  exact (search_paths_category literal_RegExp security_doc "pet" _ _
           eq_refl eq_refl).
Defined.

(** X18: the [components] category of a search holds, for every category
    of the document's components that is an object or an array and for
    every member of it whose name matches or, failing that, whose
    description does, the string [category.name]; categories and members
    come in their own order, and a category that is [null] or a scalar is
    not searched. *)
Theorem search_components_category :
  forall RegExp doc pattern searchRegex listing,
    RegExp pattern = Some searchRegex ->
    search_schema RegExp doc pattern = Ok (Yaml (VObj listing)) ->
    lookup "components" listing
    = match flat_map (component_matches searchRegex)
                     (entries_of (field doc "components" ||| VObj [])) with
      | [] => None
      | matches => Some (strings matches)
      end.
Proof.
  intros RegExp doc pattern searchRegex listing Hre Hrun.
  destruct (search_schema_listing _ _ _ _ _ Hre Hrun) as [r [Hscan Hlisted]].
  rewrite Hlisted.
  rewrite (proj1 (proj2 (scan_records _ _ _ Hscan))). reflexivity.
Qed.

Lemma search_components_category_witness :
  lookup "components"
         [("paths", strings ["/pets"]);
          ("operations", strings ["GET /pets"]);
          ("components", strings ["schemas.Pet"]);
          ("parameters", strings ["limit (GET /pets)"])]
  = Some (strings ["schemas.Pet"]).
Proof.
  exact (search_components_category literal_RegExp security_doc "pet" _ _
           eq_refl eq_refl).
Defined.

(** X19: the [securitySchemes] category of a search holds exactly the
    names of the schemes under [components.securitySchemes] whose name
    matches or, failing that, whose description does, in their own
    order. *)
Theorem search_security_category :
  forall RegExp doc pattern searchRegex listing,
    RegExp pattern = Some searchRegex ->
    search_schema RegExp doc pattern = Ok (Yaml (VObj listing)) ->
    lookup "securitySchemes" listing
    = match map fst
              (filter (entry_matches searchRegex)
                      (entries_of
                         (field (field doc "components" ||| VObj [])
                                "securitySchemes" ||| VObj []))) with
      | [] => None
      | matches => Some (strings matches)
      end.
Proof.
  intros RegExp doc pattern searchRegex listing Hre Hrun.
  destruct (search_schema_listing _ _ _ _ _ Hre Hrun) as [r [Hscan Hlisted]].
  rewrite Hlisted.
  rewrite (proj2 (proj2 (scan_records _ _ _ Hscan))). reflexivity.
Qed.

Lemma search_security_category_witness :
  lookup "securitySchemes"
         [("components", strings ["securitySchemes.ApiKeyAuth"]);
          ("securitySchemes", strings ["ApiKeyAuth"])]
  = Some (strings ["ApiKeyAuth"]).
Proof.
  exact (search_security_category literal_RegExp security_doc "authorization"
           _ _ eq_refl eq_refl).
Defined.

Lemma foldM_cons {A S} (body : S -> A -> result S) (x : A) (xs : list A)
  (s : S) :
  foldM body (x :: xs) s = (s' <- body s x ;; foldM body xs s').
Proof. reflexivity. Qed.

Lemma foldM_unchanged {A S} (body : S -> A -> result S) (xs : list A) :
  (forall s x s1, In x xs -> body s x = Ok s1 -> s1 = s) ->
  forall s s', foldM body xs s = Ok s' -> s' = s.
Proof.
  induction xs as [ | x xs IH ]; simpl; intros Hstep s s' H.
  - injection H as <-. reflexivity.
  - apply bind_Ok in H. destruct H as [s1 [H1 H2]].
    rewrite (IH (fun s x s1 Hin => Hstep s x s1 (or_intror Hin)) _ _ H2).
    apply (Hstep _ _ _ (or_introl eq_refl) H1).
Qed.

(** X20: [search-schema] looks for operations under the seven lower-case
    method keys only.  On a document none of whose Path Items holds a
    truthy value under [get], [post], [put], [delete], [patch], [options]
    or [head] (the methods being written [GET], say, which
    [list-endpoints] does list), no pattern finds an operation or a
    parameter. *)
Theorem search_reads_lower_case_methods_only :
  forall RegExp doc pattern searchRegex listing,
    RegExp pattern = Some searchRegex ->
    (forall path method,
        In path (names_of (field doc "paths" ||| VObj [])) ->
        In method HTTP_METHODS ->
        truthy (field (field (field doc "paths") path) method) = false) ->
    search_schema RegExp doc pattern = Ok (Yaml (VObj listing)) ->
    lookup "operations" listing = None /\
    lookup "parameters" listing = None.
Proof.
  intros RegExp doc pattern searchRegex listing Hre Hnone Hrun.
  destruct (search_schema_listing _ _ _ _ _ Hre Hrun) as [r [Hscan Hlisted]].
  rewrite !Hlisted. clear Hlisted Hrun.
  unfold scan in Hscan.
  apply bind_Ok in Hscan. destruct Hscan as [r1 [H1 Hscan]].
  apply bind_Ok in Hscan. destruct Hscan as [declared [_ Hscan]].
  apply bind_Ok in Hscan. destruct Hscan as [r2 [H2 H3]].
  assert (Hidle : forall k, k <> "paths" -> found k r1 = []).
  { intros k N. unfold scan_paths in H1.
    apply bind_Ok in H1. destruct H1 as [paths [Hpaths H1]].
    apply bind_Ok in H1. destruct H1 as [keys [Hkeys H1]].
    rewrite (get_field _ _ _ Hpaths) in Hnone.
    apply Object_keys_Ok in Hkeys. destruct Hkeys as [_ ->].
    assert (Hkeep : forall xs s s',
               (forall x, In x xs -> In x (names_of (paths ||| VObj []))) ->
               foldM (fun r path =>
                        let r := if searchRegex path
                                 then push "paths" path r else r in
                        pathItem <- get paths path ;;
                        foldM (fun r method =>
                                 operation <- get pathItem method ;;
                                 if negb (truthy operation) then Ok r
                                 else
                                   hit <- operation_matches searchRegex
                                            operation ;;
                                   let r :=
                                     if hit
                                     then push "operations"
                                            (toUpperCase method ++ " "
                                             ++ path) r
                                     else r in
                                   scan_parameters searchRegex path method
                                                   operation r)
                              HTTP_METHODS r)
                     xs s = Ok s' ->
               found k s' = found k s).
    { induction xs as [ | path xs IH ]; intros s s' Hsub H.
      - injection H as <-. reflexivity.
      - rewrite foldM_cons in H.
        apply bind_Ok in H. destruct H as [s1 [Hstep Hrest]].
        rewrite (IH _ _ (fun x Hx => Hsub x (or_intror Hx)) Hrest).
        apply bind_Ok in Hstep. destruct Hstep as [pathItem [Hitem Hstep]].
        apply foldM_unchanged in Hstep.
        + rewrite Hstep.
          destruct (searchRegex path);
            [ apply found_push_other; exact N | reflexivity ].
        + intros s0 method s2 Hm Hbody.
          apply bind_Ok in Hbody. destruct Hbody as [operation [Hop Hbody]].
          rewrite <- (get_field _ _ _ Hop), <- (get_field _ _ _ Hitem)
            in Hbody.
          rewrite (Hnone path method (Hsub path (or_introl eq_refl)) Hm)
            in Hbody.
          simpl in Hbody. injection Hbody as <-. reflexivity. }
    rewrite (Hkeep _ _ _ (fun x Hx => Hx) H1).
    unfold found, empty_results. simpl.
    repeat match goal with
           | |- context [if ?b then _ else _] => destruct b
           end; reflexivity. }
  split.
  - rewrite (proj2 (scan_security_keeps searchRegex "operations" _
                      ltac:(discriminate) _ _ H3)).
    rewrite (proj2 (scan_components_keeps searchRegex "operations" _
                      ltac:(discriminate) _ _ H2)).
    rewrite Hidle; [ reflexivity | discriminate ].
  - rewrite (proj2 (scan_security_keeps searchRegex "parameters" _
                      ltac:(discriminate) _ _ H3)).
    rewrite (proj2 (scan_components_keeps searchRegex "parameters" _
                      ltac:(discriminate) _ _ H2)).
    rewrite Hidle; [ reflexivity | discriminate ].
Qed.

Lemma search_reads_lower_case_methods_only_witness :
  lookup "operations" [("paths", strings ["/pets"])] = None /\
  lookup "parameters" [("paths", strings ["/pets"])] = None.
Proof.
  refine (search_reads_lower_case_methods_only
            literal_RegExp upper_case_doc "pet" _ _ eq_refl _ eq_refl).
  intros path method [<- | []] Hm.
  simpl in Hm.
  repeat (destruct Hm as [<- | Hm]; [ reflexivity | ]).
  contradiction.
Defined.

(** ** When the other tools complete *)








(** X23: [list-security-schemes] completes exactly on the documents that
    are not [null] and in which no security scheme is [null]. *)
Theorem list_security_schemes_returns_iff :
  forall doc,
    (exists out, list_security_schemes doc = Ok out)
    <->
    nullish doc = false /\
    forall name scheme,
      In (name, scheme)
         (entries_of (field (field doc "components") "securitySchemes"
                      ||| VObj [])) ->
      nullish scheme = false.
Proof.
  intro doc. destruct (nullish doc) eqn:Hdoc.
  - unfold list_security_schemes. rewrite (get_nullish _ _ Hdoc).
    split; [ intros [out H]; discriminate H | intros [H _]; discriminate H ].
  - rewrite (list_security_schemes_loops _ Hdoc).
    set (schemes := entries_of _).
    set (f := fun entry : string * value =>
                if nullish (snd entry) then Throw TypeError
                else Ok (VObj (scheme_entry (snd entry)))).
    split.
    + intros [out H]. split; [ reflexivity | ].
      apply bind_Ok in H. destruct H as [summary [Hloop _]].
      intros name scheme Hin.
      destruct (assign_defined f fst _ _ _ (name, scheme) Hloop Hin)
        as [v Hv].
      unfold f in Hv. simpl in Hv.
      destruct (nullish scheme); [ discriminate Hv | reflexivity ].
    + intros [_ Hall].
      destruct (assign_returns f fst schemes []) as [summary Hloop].
      { intros [name scheme] Hin. unfold f. simpl.
        rewrite (Hall _ _ Hin). eexists. reflexivity. }
      unfold f in Hloop. cbv beta in Hloop. rewrite Hloop. simpl.
      destruct (_ =? 0)%nat; eexists; reflexivity.
Qed.
